(** * Roundtable audio capture: ring buffer and device wrapper

    A shallow embedding of [src/audio/audio_wrapper.h]: the fixed-size
    sample ring buffer ([ring_buffer_t] with [ring_buffer_init],
    [ring_buffer_write], [ring_buffer_read]) and the device operations
    built on it ([audio_create], [audio_start_recording], [audio_stop],
    [audio_is_running], [audio_read_samples], [audio_error_message]).

    C [unsigned int] values are integers in [Z] with the 32-bit wrap-around
    written out; arrays are lists updated by index; a nullable pointer is
    an [option]; the native audio backend (the rtaudio C API) is an
    interface the device code is parameterised over. *)

From Stdlib Require Import ZArith Lia Bool String.
From stdpp Require Import base numbers list.

Local Open Scope Z_scope.

(** ** Machine integers *)

(** [unsigned int] arithmetic is modulo [2^32]. *)
Definition wrap32 (x : Z) : Z := x mod 2 ^ 32.

(** The conversion [(int) u] of an [unsigned int] on a two's complement
    machine. *)
Definition to_int (u : Z) : Z :=
  if u <? 2 ^ 31 then u else u - 2 ^ 32.

(** ** Error codes *)

Definition AUDIO_OK : Z := 0.
Definition AUDIO_ERROR : Z := -1.
Definition AUDIO_NO_DEVICES : Z := -2.
Definition AUDIO_INVALID_PARAM : Z := -3.

(** ** The size macro

    [RING_BUFFER_SIZE] is an object-like macro, so its replacement list is
    spliced in as tokens wherever the name is used. The header defines it
    as the unparenthesised product [48000 * 10]. Two shapes of replacement
    list are covered: a single integer literal and a product of two. *)

Inductive macro_body : Set :=
  | Lit (n : Z)
  | Mul (a b : Z).

(** The macro used where it is a whole operand: the array bound
    [data[RING_BUFFER_SIZE]] and the comparison
    [rb->available < RING_BUFFER_SIZE] ([*] binds tighter than [<]). *)
Definition macro_value (m : macro_body) : Z :=
  match m with
  | Lit n => n
  | Mul a b => a * b
  end.

(** The expression [x % RING_BUFFER_SIZE] after expansion. With a product
    as replacement list it reads [x % a * b]; [%] and [*] have the same
    precedence and group left to right, so it is [(x % a) * b]. *)
Definition macro_rem (x : Z) (m : macro_body) : Z :=
  match m with
  | Lit n => x mod n
  | Mul a b => wrap32 ((x mod a) * b)
  end.

(** [#define RING_BUFFER_SIZE 48000 * 10] *)
Definition RING_BUFFER_SIZE : macro_body := Mul 48000 10.

(** A replacement list is usable when its integers are positive and the
    product is an [int]. *)
Definition macro_ok (m : macro_body) : Prop :=
  match m with
  | Lit n => 0 < n < 2 ^ 31
  | Mul a b => 0 < a /\ 0 < b /\ a * b < 2 ^ 31
  end.

(** ** Ring buffer *)

(** [int16_t] samples are carried as integers; the buffer only copies
    them. The array [data] is a list. An index outside an array is
    undefined in C; here such a store changes nothing and such a load
    gives 0, and [ring_wf] below keeps every index of [data] inside. *)
Record ring_buffer_t : Type := {
  data : list Z;
  writePos : Z;
  readPos : Z;
  available : Z
}.

Definition ring_buffer_init (rb : ring_buffer_t) : ring_buffer_t :=
  {| data := data rb; writePos := 0; readPos := 0; available := 0 |}.

Section RingBuffer.
Variable size : macro_body.

(** One iteration of the loop of [ring_buffer_write]. *)
Definition write_step (src : list Z) (rb : ring_buffer_t) (written : Z)
    : ring_buffer_t :=
  {| data := <[Z.to_nat (writePos rb) := src !!! Z.to_nat written]> (data rb);
     writePos := macro_rem (wrap32 (writePos rb + 1)) size;
     readPos := readPos rb;
     available := wrap32 (available rb + 1) |}.

(** The [while] loop of [ring_buffer_write]; every iteration increments
    [written], so [samples] iterations are enough. *)
Fixpoint write_loop (fuel : nat) (src : list Z) (samples : Z)
    (rb : ring_buffer_t) (written : Z) : ring_buffer_t * Z :=
  match fuel with
  | O => (rb, written)
  | S fuel' =>
      if (written <? samples) && (available rb <? macro_value size) then
        write_loop fuel' src samples (write_step src rb written)
          (wrap32 (written + 1))
      else (rb, written)
  end.

(** [ring_buffer_write(rb, data, samples)]: the new buffer state and the
    count returned. *)
Definition ring_buffer_write (rb : ring_buffer_t) (src : list Z)
    (samples : Z) : ring_buffer_t * Z :=
  write_loop (Z.to_nat samples) src samples rb 0.

(** One iteration of the loop of [ring_buffer_read]: the buffer side. *)
Definition read_step (rb : ring_buffer_t) : ring_buffer_t :=
  {| data := data rb;
     writePos := writePos rb;
     readPos := macro_rem (wrap32 (readPos rb + 1)) size;
     available := wrap32 (available rb - 1) |}.

(** The [while] loop of [ring_buffer_read]; [dst] is the caller's
    array. *)
Fixpoint read_loop (fuel : nat) (samples : Z) (rb : ring_buffer_t)
    (dst : list Z) (read : Z) : ring_buffer_t * list Z * Z :=
  match fuel with
  | O => (rb, dst, read)
  | S fuel' =>
      if (read <? samples) && (0 <? available rb) then
        read_loop fuel' samples (read_step rb)
          (<[Z.to_nat read := data rb !!! Z.to_nat (readPos rb)]> dst)
          (wrap32 (read + 1))
      else (rb, dst, read)
  end.

(** [ring_buffer_read(rb, data, samples)]: the new buffer state, the
    caller's array and the count returned. *)
Definition ring_buffer_read (rb : ring_buffer_t) (dst : list Z)
    (samples : Z) : ring_buffer_t * list Z * Z :=
  read_loop (Z.to_nat samples) samples rb dst 0.

(** The state invariant of the buffer. *)
Definition ring_wf (rb : ring_buffer_t) : Prop :=
  0 <= writePos rb < macro_value size /\
  0 <= readPos rb < macro_value size /\
  0 <= available rb <= macro_value size /\
  Z.of_nat (length (data rb)) = macro_value size.
End RingBuffer.

(** The samples a read call delivered: the first [count] cells of the
    caller's array. *)
Definition delivered (r : ring_buffer_t * list Z * Z) : list Z :=
  take (Z.to_nat (snd r)) (snd (fst r)).

(** The queue a buffer with a literal size [n] stands for: the
    [available] cells from [readPos] on, around the end of the array. *)
Definition ring_view (n : Z) (rb : ring_buffer_t) : list Z :=
  map (fun i : nat => data rb !!! Z.to_nat ((readPos rb + Z.of_nat i) mod n))
      (seq 0 (Z.to_nat (available rb))).

(** In such a buffer the write cursor is [available] cells ahead of the
    read cursor. *)
Definition ring_sync (n : Z) (rb : ring_buffer_t) : Prop :=
  writePos rb = (readPos rb + available rb) mod n.

(** An array of [n] cells holding zero. *)
Definition zeros (n : Z) : list Z := replicate (Z.to_nat n) 0.

(** A buffer just initialised, over an array of [n] cells. *)
Definition fresh_buffer (n : Z) : ring_buffer_t :=
  ring_buffer_init
    {| data := zeros n; writePos := 0; readPos := 0; available := 0 |}.

(** The samples [1, 2, ..., n]. *)
Definition ramp (n : nat) : list Z := map Z.of_nat (seq 1 n).

(** ** Traces of buffer operations, with running totals *)

Inductive rb_op : Type :=
  | OpWrite (src : list Z)
  | OpRead (dst : list Z) (samples : Z).

Record tally : Set := {
  t_offered : Z;
  t_written : Z;
  t_dropped : Z;
  t_read : Z
}.

Definition tally0 : tally :=
  {| t_offered := 0; t_written := 0; t_dropped := 0; t_read := 0 |}.

(** The arguments are values of type [unsigned int], and a written block
    has as many samples as announced. *)
Definition op_ok (o : rb_op) : Prop :=
  match o with
  | OpWrite src => Z.of_nat (length src) < 2 ^ 32
  | OpRead dst samples => 0 <= samples < 2 ^ 32
  end.

Definition rb_step (size : macro_body) (s : ring_buffer_t * tally)
    (o : rb_op) : ring_buffer_t * tally :=
  let (rb, t) := s in
  match o with
  | OpWrite src =>
      let n := Z.of_nat (length src) in
      let (rb', w) := ring_buffer_write size rb src n in
      (rb', {| t_offered := t_offered t + n;
               t_written := t_written t + w;
               t_dropped := t_dropped t + (n - w);
               t_read := t_read t |})
  | OpRead dst samples =>
      let '(rb', _, r) := ring_buffer_read size rb dst samples in
      (rb', {| t_offered := t_offered t;
               t_written := t_written t;
               t_dropped := t_dropped t;
               t_read := t_read t + r |})
  end.

Definition rb_run (size : macro_body) (ops : list rb_op)
    (s : ring_buffer_t * tally) : ring_buffer_t * tally :=
  fold_left (rb_step size) ops s.

(** What every operation keeps: the buffer invariant, and the books of
    the samples offered, accepted, dropped, read and still stored. *)
Definition books_balance (size : macro_body) (s : ring_buffer_t * tally) : Prop :=
  ring_wf size (fst s) /\
  t_read (snd s) + available (fst s) = t_written (snd s) /\
  t_written (snd s) = t_offered (snd s) - t_dropped (snd s).

(** ** The native audio backend

    The calls of the rtaudio C API that the wrapper makes. [H] is the
    state of the backend object behind an [rtaudio_t] handle; a call that
    changes the object returns its new state. The two queries return an
    [int] used as a truth value. *)

Class RtAudio (H : Type) : Type := {
  (** the enumerator [RTAUDIO_ERROR_NONE] of [rtaudio_error_t] *)
  RTAUDIO_ERROR_NONE : Z;
  (** [rtaudio_open_stream] for an input-only stream of 16-bit samples:
      the device id, number of channels, first channel, sample rate and
      requested buffer size; returns the error and the buffer size the
      backend settled on. *)
  rtaudio_open_stream : H -> Z -> Z -> Z -> Z -> Z -> H * Z * Z;
  rtaudio_start_stream : H -> H * Z;
  rtaudio_stop_stream : H -> H * Z;
  rtaudio_close_stream : H -> H;
  rtaudio_is_stream_open : H -> bool;
  rtaudio_is_stream_running : H -> bool;
  (** [rtaudio_error]: the text of the last backend error *)
  rtaudio_error : H -> string
}.

(** What the wrapper relies on from the backend: closing a stream leaves
    it not open, and only an open stream can be running. *)
Class RtAudioLaws (H : Type) `{RtAudio H} : Prop := {
  close_stream_closes :
    forall h : H, rtaudio_is_stream_open (rtaudio_close_stream h) = false;
  running_stream_is_open :
    forall h : H, rtaudio_is_stream_running h = true ->
                  rtaudio_is_stream_open h = true
}.

(** ** The device *)

Record audio_device (H : Type) : Type := {
  handle : option H;
  ringBuffer : ring_buffer_t;
  channels : Z;
  errorMsg : string
}.

Arguments handle {H} _.
Arguments ringBuffer {H} _.
Arguments channels {H} _.
Arguments errorMsg {H} _.

(** [snprintf(buf, size, "%s", s)]: at most [size - 1] characters are
    stored. *)
Definition snprintf (size : nat) (s : string) : string :=
  String.substring 0 (size - 1) s.

Section Device.
Context {H : Type} `{RtAudio H}.
Variable size : macro_body.

(** [audio_callback]: the backend hands over a block of [nFrames] frames,
    or no input block. *)
Definition audio_callback (inputBuffer : option (list Z)) (nFrames : Z)
    (dev : audio_device H) : audio_device H * Z :=
  match inputBuffer with
  | Some samples =>
      let totalSamples := wrap32 (nFrames * channels dev) in
      ({| handle := handle dev;
          ringBuffer :=
            fst (ring_buffer_write size (ringBuffer dev) samples totalSamples);
          channels := channels dev;
          errorMsg := errorMsg dev |}, 0)
  | None => (dev, 0)
  end.

(** [audio_create]: [fresh] is the storage [malloc] returned, or nothing
    when it failed; [h] is the result of [rtaudio_create]. *)
Definition audio_create (fresh : option (audio_device H)) (h : option H)
    : option (audio_device H) :=
  match fresh with
  | None => None
  | Some dev =>
      match h with
      | None => None
      | Some _ =>
          Some {| handle := h;
                  ringBuffer := ring_buffer_init (ringBuffer dev);
                  channels := 0;
                  errorMsg := EmptyString |}
      end
  end.

(** [audio_start_recording]: the device afterwards and the value
    returned. *)
Definition audio_start_recording (dev : option (audio_device H))
    (deviceId chans sampleRate bufferFrames : Z)
    : option (audio_device H) * Z :=
  match dev with
  | None => (dev, AUDIO_ERROR)
  | Some d =>
      match handle d with
      | None => (dev, AUDIO_ERROR)
      | Some h =>
          if (chans =? 0) || (sampleRate =? 0) then (dev, AUDIO_INVALID_PARAM)
          else
            let '(h1, err, frames) :=
              rtaudio_open_stream h deviceId chans 0 sampleRate bufferFrames in
            if negb (err =? RTAUDIO_ERROR_NONE) then
              (Some {| handle := Some h1;
                       ringBuffer := ringBuffer d;
                       channels := chans;
                       errorMsg := snprintf 256 (rtaudio_error h1) |},
               AUDIO_ERROR)
            else
              let (h2, err') := rtaudio_start_stream h1 in
              if negb (err' =? RTAUDIO_ERROR_NONE) then
                (Some {| handle := Some (rtaudio_close_stream h2);
                         ringBuffer := ringBuffer d;
                         channels := chans;
                         errorMsg := snprintf 256 (rtaudio_error h2) |},
                 AUDIO_ERROR)
              else
                (Some {| handle := Some h2;
                         ringBuffer := ringBuffer d;
                         channels := chans;
                         errorMsg := errorMsg d |},
                 to_int frames)
      end
  end.

(** [audio_stop] *)
Definition audio_stop (dev : option (audio_device H))
    : option (audio_device H) :=
  match dev with
  | None => dev
  | Some d =>
      match handle d with
      | None => dev
      | Some h =>
          let h1 :=
            if rtaudio_is_stream_running h
            then fst (rtaudio_stop_stream h) else h in
          let h2 :=
            if rtaudio_is_stream_open h1
            then rtaudio_close_stream h1 else h1 in
          Some {| handle := Some h2;
                  ringBuffer := ringBuffer d;
                  channels := channels d;
                  errorMsg := errorMsg d |}
      end
  end.

(** [audio_is_running] *)
Definition audio_is_running (dev : option (audio_device H)) : Z :=
  match dev with
  | None => 0
  | Some d =>
      match handle d with
      | None => 0
      | Some h => Z.b2z (rtaudio_is_stream_running h)
      end
  end.

(** [audio_read_samples]: [buffer] is the caller's array, or nothing for
    a null pointer. The result is the device, the array and the value
    returned. With [channels = 0] (a device that was never started) the
    division of the C code is undefined; the value given here for that
    case is not the code's, and every property below that reaches the
    division assumes [0 < channels]. *)
Definition audio_read_samples (dev : option (audio_device H))
    (buffer : option (list Z)) (maxFrames : Z)
    : option (audio_device H) * option (list Z) * Z :=
  match dev, buffer with
  | Some d, Some dst =>
      if maxFrames =? 0 then (dev, buffer, AUDIO_INVALID_PARAM)
      else
        let totalSamples := wrap32 (maxFrames * channels d) in
        let '(rb', dst', samplesRead) :=
          ring_buffer_read size (ringBuffer d) dst totalSamples in
        (Some {| handle := handle d;
                 ringBuffer := rb';
                 channels := channels d;
                 errorMsg := errorMsg d |},
         Some dst',
         to_int (samplesRead / channels d))
  | _, _ => (dev, buffer, AUDIO_INVALID_PARAM)
  end.

(** [audio_error_message] *)
Definition audio_error_message (dev : option (audio_device H)) : string :=
  match dev with
  | None => "Invalid device"%string
  | Some d =>
      match errorMsg d with
      | EmptyString => "No error"%string
      | String _ _ => errorMsg d
      end
  end.

(** What the backend does during a start with valid parameters: the
    diagnostic of the first call that fails (open, then start), or
    nothing when both succeed. *)
Definition backend_failure (h : H)
    (deviceId chans sampleRate bufferFrames : Z) : option string :=
  let '(h1, err, _) :=
    rtaudio_open_stream h deviceId chans 0 sampleRate bufferFrames in
  if negb (err =? RTAUDIO_ERROR_NONE) then Some (rtaudio_error h1)
  else
    let (h2, err') := rtaudio_start_stream h1 in
    if negb (err' =? RTAUDIO_ERROR_NONE) then Some (rtaudio_error h2)
    else None.

(** The part of the lifecycle the backend reports: whether the stream is
    open and whether it is running. *)
Definition stream_state (dev : option (audio_device H)) : bool * bool :=
  match dev with
  | Some d =>
      match handle d with
      | Some h => (rtaudio_is_stream_open h, rtaudio_is_stream_running h)
      | None => (false, false)
      end
  | None => (false, false)
  end.
End Device.

(** What the wrapper's callers rely on when a stream is opened: a failed
    open leaves the stream as it was, and an open succeeds only on a
    stream that is not open yet. *)
Class RtAudioOpenLaws (H : Type) `{RtAudio H} : Prop := {
  failed_open_keeps_stream :
    forall (h h1 : H) deviceId chans first rate frames err frames',
      rtaudio_open_stream h deviceId chans first rate frames = (h1, err, frames') ->
      err <> RTAUDIO_ERROR_NONE ->
      rtaudio_is_stream_open h1 = rtaudio_is_stream_open h /\
      rtaudio_is_stream_running h1 = rtaudio_is_stream_running h;
  open_needs_closed_stream :
    forall (h h1 : H) deviceId chans first rate frames frames',
      rtaudio_open_stream h deviceId chans first rate frames
        = (h1, RTAUDIO_ERROR_NONE, frames') ->
      rtaudio_is_stream_open h = false
}.

(** ** A reference backend *)

Module Sim.

(** Modelled from the spec: the native audio backend is an external
    collaborator (stream open, start, stop, close and the two state
    queries) whose code is not part of the sources. This stand-in keeps
    the two stream flags, the number of devices it accepts, whether the
    next start succeeds, and the text of its last error. *)
Record state : Set := {
  is_open : bool;
  is_running : bool;
  devices : Z;
  start_ok : bool;
  message : string
}.

Definition fail (h : state) (msg : string) : state :=
  {| is_open := is_open h; is_running := is_running h;
     devices := devices h; start_ok := start_ok h; message := msg |}.

Definition with_flags (h : state) (o r : bool) : state :=
  {| is_open := o; is_running := r;
     devices := devices h; start_ok := start_ok h; message := message h |}.

Definition open_stream (h : state)
    (deviceId chans first rate frames : Z) : state * Z * Z :=
  if is_open h then (fail h "a stream is already open", 1, frames)
  else if (0 <=? deviceId) && (deviceId <? devices h)
  then (with_flags h true false, 0, frames)
  else (fail h "device ID is invalid", 1, frames).

Definition start_stream (h : state) : state * Z :=
  if is_open h && negb (is_running h) && start_ok h
  then (with_flags h true true, 0)
  else (fail h "the stream cannot be started", 1).

Definition stop_stream (h : state) : state * Z :=
  if is_running h then (with_flags h (is_open h) false, 0)
  else (fail h "the stream is not running", 1).

Definition close_stream (h : state) : state := with_flags h false false.

#[global] Instance backend : RtAudio state := {|
  RTAUDIO_ERROR_NONE := 0;
  rtaudio_open_stream := open_stream;
  rtaudio_start_stream := start_stream;
  rtaudio_stop_stream := stop_stream;
  rtaudio_close_stream := close_stream;
  rtaudio_is_stream_open := is_open;
  rtaudio_is_stream_running := fun h => is_open h && is_running h;
  rtaudio_error := message
|}.

(** A backend with one device (id 0) and no stream. *)
Definition idle (ok : bool) : state :=
  {| is_open := false; is_running := false; devices := 1;
     start_ok := ok; message := EmptyString |}.

(** The device [audio_create] returns on such a backend, with a ring
    buffer array of [n] cells. *)
Definition device (ok : bool) (n : Z) : audio_device state :=
  {| handle := Some (idle ok);
     ringBuffer := fresh_buffer n;
     channels := 0;
     errorMsg := EmptyString |}.

End Sim.

(** ** The cells a cursor visits *)

(** The cursor update shared by both loops:
    [(pos + 1) % RING_BUFFER_SIZE]. *)
Definition cursor_next (size : macro_body) (p : Z) : Z :=
  macro_rem (wrap32 (p + 1)) size.

(** The cells visited by [k] successive stores (or loads) that start at
    cell [p]. *)
Fixpoint cursor_walk (size : macro_body) (p : Z) (k : nat) : list Z :=
  match k with
  | O => []
  | S k' => p :: cursor_walk size (cursor_next size p) k'
  end.

(** The contents of the cells [ps] of an array. *)
Definition cells_at (d : list Z) (ps : list Z) : list Z :=
  map (fun p => d !!! Z.to_nat p) ps.

(** The cells the shipped cursor reaches from cell 0. *)
Definition shipped_cells : list Z :=
  [0; 10; 110; 1110; 11110; 111110; 151110; 71110; 231110; 391110].

(** ** The fixed-length recorder

    [src/audio/microphone.c] (and, with the same text for these two
    functions, [src/microphone.cpp]): the WAV header and the callback that
    fills a buffer allocated for the whole recording. [sample_t] is
    [int16_t], so [sizeof(sample_t)] is 2. The width of [unsigned long]
    depends on the platform (the files provide for Windows, where it is
    32, and for Unix, where it is usually 64) and is a parameter. *)

Module Microphone.

Definition wrap16 (x : Z) : Z := x mod 2 ^ 16.

Record WavHeader : Set := {
  chunkId : string;
  chunkSize : Z;
  format : string;
  subchunk1Id : string;
  subchunk1Size : Z;
  audioFormat : Z;
  numChannels : Z;
  sampleRate : Z;
  byteRate : Z;
  blockAlign : Z;
  bitsPerSample : Z;
  subchunk2Id : string;
  subchunk2Size : Z
}.

Record InputData : Set := {
  buffer : list Byte.byte;
  bufferBytes : Z;
  totalFrames : Z;
  frameCounter : Z;
  channels : Z
}.

(** [memcpy(dst + off, src, n)] on byte arrays: defined when the [n] bytes
    lie inside both arrays, undefined (no result) otherwise. *)
Definition memcpy (dst : list Byte.byte) (off : Z) (src : list Byte.byte)
    (n : Z) : option (list Byte.byte) :=
  if (0 <=? off) && (0 <=? n)
     && (off + n <=? Z.of_nat (length dst))
     && (n <=? Z.of_nat (length src))
  then Some (take (Z.to_nat off) dst
             ++ take (Z.to_nat n) src
             ++ drop (Z.to_nat (off + n)) dst)
  else None.

Section Platform.
Variable ULONG_BITS : Z.

(** [unsigned long] arithmetic. *)
Definition wrapL (x : Z) : Z := x mod 2 ^ ULONG_BITS.

(** [writeWavHeader]: the header whose 44 bytes are written to the
    file. *)
Definition writeWavHeader (channels sampleRate bitsPerSample totalFrames : Z)
    : WavHeader :=
  let dataSize :=
    wrapL (wrapL (totalFrames * channels) * (bitsPerSample / 8)) in
  {| chunkId := "RIFF";
     chunkSize := wrap32 (wrapL (36 + dataSize));
     format := "WAVE";
     subchunk1Id := "fmt ";
     subchunk1Size := 16;
     audioFormat := 1;
     numChannels := wrap16 channels;
     sampleRate := sampleRate;
     byteRate := wrap32 (wrap32 (sampleRate * channels) * (bitsPerSample / 8));
     blockAlign := wrap16 (wrap32 (channels * (bitsPerSample / 8)));
     bitsPerSample := wrap16 bitsPerSample;
     subchunk2Id := "data";
     subchunk2Size := wrap32 dataSize |}.

(** [input_callback] ([input] in the C++ file): the recorder state
    afterwards and the value returned, or nothing when the copy leaves one
    of the arrays. The offset is counted in samples of 2 bytes. *)
Definition input_callback (inputBuffer : list Byte.byte) (nBufferFrames : Z)
    (data : InputData) : option (InputData * Z) :=
  let over :=
    totalFrames data <? wrapL (frameCounter data + nBufferFrames) in
  let frames :=
    if over then wrap32 (wrapL (totalFrames data - frameCounter data))
    else nBufferFrames in
  let bytes :=
    if over then wrapL (wrap32 (frames * channels data) * 2)
    else bufferBytes data in
  let offset := wrapL (frameCounter data * channels data) in
  match memcpy (buffer data) (offset * 2) inputBuffer bytes with
  | None => None
  | Some buffer' =>
      let counter := wrapL (frameCounter data + frames) in
      Some ({| buffer := buffer';
               bufferBytes := bytes;
               totalFrames := totalFrames data;
               frameCounter := counter;
               channels := channels data |},
            if totalFrames data <=? counter then 2 else 0)
  end.

(** Modelled from the spec: the backend calls the callback for each input
    block for as long as it answers "continue" (0) and stops the stream
    at any other answer. The result is the recorder state when the stream
    ends or the blocks run out. *)
Fixpoint record (nBufferFrames : Z) (blocks : list (list Byte.byte))
    (data : InputData) : option InputData :=
  match blocks with
  | [] => Some data
  | block :: rest =>
      match input_callback block nBufferFrames data with
      | None => None
      | Some (data', ret) =>
          if ret =? 0 then record nBufferFrames rest data' else Some data'
      end
  end.

(** What the callback relies on and keeps, for blocks of [n] frames: the
    counter has not passed the total, the buffer is the one allocated for
    the whole recording ([totalFrames * channels * sizeof(sample_t)]
    bytes, as in [main]), the sizes fit their types, and while a whole
    block still fits [bufferBytes] is the size of a block. *)
Definition recorder_ok (n : Z) (data : InputData) : Prop :=
  0 <= frameCounter data <= totalFrames data /\
  0 <= channels data /\
  0 <= n < 2 ^ 32 /\
  n * channels data < 2 ^ 32 /\
  totalFrames data + n < 2 ^ ULONG_BITS /\
  totalFrames data * channels data * 2 < 2 ^ ULONG_BITS /\
  Z.of_nat (length (buffer data)) = totalFrames data * channels data * 2 /\
  (frameCounter data + n <= totalFrames data ->
   bufferBytes data = n * channels data * 2).
End Platform.

End Microphone.

(** * Properties *)

(** Closed goals over concrete inputs are settled by evaluation. *)
Ltac eval_goal :=
  vm_compute;
  repeat split; try reflexivity; try discriminate; try (intro; discriminate).

(** ** Machine integers and the size macro *)

Lemma wrap32_small (x : Z) : 0 <= x < 2 ^ 32 -> wrap32 x = x.
Proof. intros Hx. unfold wrap32. apply Z.mod_small. exact Hx. Qed.

Lemma wrap32_nonneg (x : Z) : 0 <= wrap32 x.
Proof. unfold wrap32. apply Z.mod_pos_bound. lia. Qed.

Lemma wrap32_le (x : Z) : 0 <= x -> wrap32 x <= x.
Proof. intros Hx. unfold wrap32. apply Z.mod_le; lia. Qed.

Lemma to_int_small (u : Z) : u < 2 ^ 31 -> to_int u = u.
Proof.
  intros Hu. unfold to_int.
  destruct (Z.ltb_spec u (2 ^ 31)); [reflexivity | lia].
Qed.

Lemma macro_value_bound (m : macro_body) :
  macro_ok m -> 0 < macro_value m < 2 ^ 31.
Proof. destruct m as [n | a b]; simpl; intros Hm; nia. Qed.

Lemma macro_rem_range (m : macro_body) (x : Z) :
  macro_ok m -> 0 <= x -> 0 <= macro_rem x m < macro_value m.
Proof.
  destruct m as [n | a b]; simpl; intros Hm Hx.
  - apply Z.mod_pos_bound. lia.
  - destruct Hm as (Ha & Hb & Hab).
    pose proof (Z.mod_pos_bound x a Ha) as Hr.
    rewrite wrap32_small; nia.
Qed.

(** ** The loops of the ring buffer *)

(** A loop that exits at once: the invariant is the hypothesis [Hwf] and
    the counts are arithmetic. *)
Ltac loop_exit Hwf :=
  let Hw := fresh in
  pose proof Hwf as Hw; destruct Hw as (? & ? & ? & ?);
  split; [exact Hwf | repeat split; lia].


Section RingBufferFacts.
Variable size : macro_body.
Hypothesis size_ok : macro_ok size.

Lemma write_step_wf (src : list Z) (rb : ring_buffer_t) (written : Z) :
  ring_wf size rb -> available rb < macro_value size ->
  ring_wf size (write_step size src rb written) /\
  available (write_step size src rb written) = available rb + 1.
Proof.
  intros (Hw & Hr & Ha & Hlen) Hlt.
  pose proof (macro_value_bound size size_ok) as Hcap.
  unfold ring_wf, write_step; simpl.
  rewrite length_insert, (wrap32_small (available rb + 1)) by lia.
  pose proof (macro_rem_range size (wrap32 (writePos rb + 1)) size_ok
                (wrap32_nonneg _)).
  repeat split; lia.
Qed.

Lemma read_step_wf (rb : ring_buffer_t) :
  ring_wf size rb -> 0 < available rb ->
  ring_wf size (read_step size rb) /\
  available (read_step size rb) = available rb - 1.
Proof.
  intros (Hw & Hr & Ha & Hlen) Hlt.
  pose proof (macro_value_bound size size_ok) as Hcap.
  unfold ring_wf, read_step; simpl.
  rewrite (wrap32_small (available rb - 1)) by lia.
  pose proof (macro_rem_range size (wrap32 (readPos rb + 1)) size_ok
                (wrap32_nonneg _)).
  repeat split; lia.
Qed.

(** The write loop stops after [min] of the samples left and the free
    cells, keeps the invariant and adds that many to [available]. *)
Lemma write_loop_spec (src : list Z) (samples : Z) (fuel : nat) :
  forall (rb : ring_buffer_t) (written : Z),
    ring_wf size rb ->
    0 <= written <= samples -> samples < 2 ^ 32 ->
    samples - written <= Z.of_nat fuel ->
    let r := write_loop size fuel src samples rb written in
    ring_wf size (fst r) /\
    snd r = written + Z.min (samples - written)
                            (macro_value size - available rb) /\
    available (fst r) = available rb + (snd r - written).
Proof.
  induction fuel as [| fuel IH]; intros rb written Hwf Hwr Hs Hfuel.
  - simpl. loop_exit Hwf.
  - cbn [write_loop].
    destruct (Z.ltb_spec written samples) as [Hlt | Hge];
      destruct (Z.ltb_spec (available rb) (macro_value size)) as [Hfree | Hfull];
      cbn [andb].
    + destruct (write_step_wf src rb written Hwf Hfree) as (Hwf' & Hav').
      rewrite (wrap32_small (written + 1)) by lia.
      specialize (IH (write_step size src rb written) (written + 1) Hwf').
      cbv zeta in IH. rewrite Hav' in IH.
      destruct IH as (IH1 & IH2 & IH3); [lia | lia | lia |].
      split; [exact IH1 | split; lia].
    + simpl. loop_exit Hwf.
    + simpl. loop_exit Hwf.
    + simpl. loop_exit Hwf.
Qed.

(** The read loop stops after [min] of the samples asked for and the
    samples stored, keeps the invariant and takes that many from
    [available]; the caller's array keeps its length. *)
Lemma read_loop_spec (samples : Z) (fuel : nat) :
  forall (rb : ring_buffer_t) (dst : list Z) (read : Z),
    ring_wf size rb ->
    0 <= read <= samples -> samples < 2 ^ 32 ->
    samples - read <= Z.of_nat fuel ->
    let r := read_loop size fuel samples rb dst read in
    ring_wf size (fst (fst r)) /\
    snd r = read + Z.min (samples - read) (available rb) /\
    available (fst (fst r)) = available rb - (snd r - read) /\
    length (snd (fst r)) = length dst.
Proof.
  induction fuel as [| fuel IH]; intros rb dst read Hwf Hrd Hs Hfuel.
  - simpl. loop_exit Hwf.
  - cbn [read_loop].
    destruct (Z.ltb_spec read samples) as [Hlt | Hge];
      destruct (Z.ltb_spec 0 (available rb)) as [Hsome | Hnone];
      cbn [andb].
    + destruct (read_step_wf rb Hwf Hsome) as (Hwf' & Hav').
      rewrite (wrap32_small (read + 1)) by lia.
      specialize (IH (read_step size rb)
                    (<[Z.to_nat read := data rb !!! Z.to_nat (readPos rb)]> dst)
                    (read + 1) Hwf').
      cbv zeta in IH. rewrite Hav', length_insert in IH.
      destruct IH as (IH1 & IH2 & IH3 & IH4); [lia | lia | lia |].
      split; [exact IH1 | repeat split; [lia | lia | exact IH4]].
    + simpl. loop_exit Hwf.
    + simpl. loop_exit Hwf.
    + simpl. loop_exit Hwf.
Qed.

(** [ring_buffer_write] on a well-formed buffer. *)
Lemma ring_buffer_write_count (rb : ring_buffer_t) (src : list Z) (samples : Z) :
  ring_wf size rb -> 0 <= samples < 2 ^ 32 ->
  let r := ring_buffer_write size rb src samples in
  ring_wf size (fst r) /\
  snd r = Z.min samples (macro_value size - available rb) /\
  available (fst r) = available rb + snd r.
Proof.
  intros Hwf Hs. unfold ring_buffer_write.
  pose proof (write_loop_spec src samples (Z.to_nat samples) rb 0 Hwf) as Hl.
  cbv zeta in *. destruct Hl as (H1 & H2 & H3); [lia | lia | lia |].
  rewrite Z.sub_0_r in *. rewrite Z.add_0_l in H2. auto.
Qed.

(** [ring_buffer_read] on a well-formed buffer. *)
Lemma ring_buffer_read_count (rb : ring_buffer_t) (dst : list Z) (samples : Z) :
  ring_wf size rb -> 0 <= samples < 2 ^ 32 ->
  let r := ring_buffer_read size rb dst samples in
  ring_wf size (fst (fst r)) /\
  snd r = Z.min samples (available rb) /\
  available (fst (fst r)) = available rb - snd r /\
  length (snd (fst r)) = length dst.
Proof.
  intros Hwf Hs. unfold ring_buffer_read.
  pose proof (read_loop_spec samples (Z.to_nat samples) rb dst 0 Hwf) as Hl.
  cbv zeta in *. destruct Hl as (H1 & H2 & H3 & H4); [lia | lia | lia |].
  rewrite Z.sub_0_r in *. rewrite Z.add_0_l in H2. auto.
Qed.
End RingBufferFacts.

(** ** The loops terminate within their fuel

    Once the fuel covers the samples still to go, more fuel changes
    nothing: the result is that of the C loop. No assumption on the buffer
    is needed. *)

Lemma write_loop_fuel_enough (size : macro_body) (src : list Z) (samples : Z)
    (extra fuel : nat) :
  forall (rb : ring_buffer_t) (written : Z),
    0 <= written <= samples -> samples < 2 ^ 32 ->
    samples - written <= Z.of_nat fuel ->
    write_loop size (fuel + extra) src samples rb written
    = write_loop size fuel src samples rb written.
Proof.
  induction fuel as [| fuel IH]; intros rb written Hw Hs Hfuel.
  - destruct extra as [| extra]; [reflexivity |].
    cbn [Nat.add write_loop].
    destruct (Z.ltb_spec written samples); [lia | reflexivity].
  - cbn [Nat.add write_loop].
    destruct ((written <? samples) && (available rb <? macro_value size))
      eqn:Hc; [| reflexivity].
    apply andb_true_iff in Hc as [Hlt _]. apply Z.ltb_lt in Hlt.
    rewrite (wrap32_small (written + 1)) by lia.
    apply IH; lia.
Qed.

Lemma read_loop_fuel_enough (size : macro_body) (samples : Z)
    (extra fuel : nat) :
  forall (rb : ring_buffer_t) (dst : list Z) (read : Z),
    0 <= read <= samples -> samples < 2 ^ 32 ->
    samples - read <= Z.of_nat fuel ->
    read_loop size (fuel + extra) samples rb dst read
    = read_loop size fuel samples rb dst read.
Proof.
  induction fuel as [| fuel IH]; intros rb dst read Hr Hs Hfuel.
  - destruct extra as [| extra]; [reflexivity |].
    cbn [Nat.add read_loop].
    destruct (Z.ltb_spec read samples); [lia | reflexivity].
  - cbn [Nat.add read_loop].
    destruct ((read <? samples) && (0 <? available rb)) eqn:Hc; [| reflexivity].
    apply andb_true_iff in Hc as [Hlt _]. apply Z.ltb_lt in Hlt.
    rewrite (wrap32_small (read + 1)) by lia.
    apply IH; lia.
Qed.

(** ** What each loop leaves alone *)

Lemma write_loop_readPos (size : macro_body) (src : list Z) (samples : Z)
    (fuel : nat) :
  forall (rb : ring_buffer_t) (written : Z),
    readPos (fst (write_loop size fuel src samples rb written)) = readPos rb.
Proof.
  induction fuel as [| fuel IH]; intros rb written; [reflexivity |].
  cbn [write_loop].
  destruct ((written <? samples) && (available rb <? macro_value size));
    [| reflexivity].
  rewrite IH. reflexivity.
Qed.

Lemma read_loop_writer_side (size : macro_body) (samples : Z) (fuel : nat) :
  forall (rb : ring_buffer_t) (dst : list Z) (read : Z),
    let rb' := fst (fst (read_loop size fuel samples rb dst read)) in
    writePos rb' = writePos rb /\ data rb' = data rb.
Proof.
  induction fuel as [| fuel IH]; intros rb dst read; [split; reflexivity |].
  cbn [read_loop].
  destruct ((read <? samples) && (0 <? available rb)); [| split; reflexivity].
  exact (IH (read_step size rb) _ _).
Qed.

(** C10: [ring_buffer_write] never changes [readPos], and
    [ring_buffer_read] never changes [writePos] or the stored samples, in
    any buffer state and for any arguments: the producer moves only the
    write cursor and the consumer only the read cursor (both update
    [available]). *)
Theorem ring_buffer_cursor_frame (size : macro_body) (rb : ring_buffer_t)
    (src dst : list Z) (samples : Z) :
  readPos (fst (ring_buffer_write size rb src samples)) = readPos rb /\
  writePos (fst (fst (ring_buffer_read size rb dst samples))) = writePos rb /\
  data (fst (fst (ring_buffer_read size rb dst samples))) = data rb.
Proof.
  split.
  - apply write_loop_readPos.
  - apply read_loop_writer_side.
Qed.

(** ** Invariant and accounting over traces *)

Lemma rb_step_balance (size : macro_body) (s : ring_buffer_t * tally)
    (o : rb_op) :
  macro_ok size -> op_ok o ->
  books_balance size s -> books_balance size (rb_step size s o).
Proof.
  intros Hm Ho (Hwf & Hrd & Hwr). destruct s as [rb t]. simpl in Hwf, Hrd, Hwr.
  destruct o as [src | dst samples]; simpl in Ho; unfold rb_step.
  - pose proof (ring_buffer_write_count size Hm rb src (Z.of_nat (length src)) Hwf)
      as Hc.
    destruct (ring_buffer_write size rb src (Z.of_nat (length src))) as [rb' w].
    cbv zeta in Hc. simpl in Hc.
    destruct Hc as (Hwf' & Hw & Hav); [lia |].
    unfold books_balance; simpl. split; [exact Hwf' | lia].
  - pose proof (ring_buffer_read_count size Hm rb dst samples Hwf Ho) as Hc.
    destruct (ring_buffer_read size rb dst samples) as [[rb' dst'] r].
    cbv zeta in Hc. simpl in Hc.
    destruct Hc as (Hwf' & Hr & Hav & _).
    unfold books_balance; simpl. split; [exact Hwf' | lia].
Qed.

Lemma rb_run_balance (size : macro_body) (ops : list rb_op) :
  macro_ok size -> Forall op_ok ops ->
  forall s, books_balance size s -> books_balance size (rb_run size ops s).
Proof.
  intros Hm Hops. induction Hops as [| o ops Ho _ IH]; intros s Hs.
  - exact Hs.
  - unfold rb_run. simpl. apply IH. apply rb_step_balance; assumption.
Qed.

(** C2, as amended: from an initialised buffer whose array has the
    capacity's length, after every operation of every sequence of writes
    and reads the invariant holds ([0 <= available <= capacity], both
    cursors in [[0, capacity)]), the samples read plus the samples still
    available equal the samples accepted by the writes, and the samples
    accepted are the samples offered minus the samples dropped. *)
Theorem ring_buffer_trace_invariant (size : macro_body)
    (rb : ring_buffer_t) (ops : list rb_op) (k : nat) :
  macro_ok size ->
  Z.of_nat (length (data rb)) = macro_value size ->
  Forall op_ok ops ->
  let s := rb_run size (take k ops) (ring_buffer_init rb, tally0) in
  (0 <= available (fst s) <= macro_value size /\
   0 <= writePos (fst s) < macro_value size /\
   0 <= readPos (fst s) < macro_value size) /\
  t_read (snd s) = t_offered (snd s) - t_dropped (snd s) - available (fst s) /\
  t_read (snd s) + available (fst s) = t_written (snd s).
Proof.
  intros Hm Hlen Hops.
  pose proof (macro_value_bound size Hm) as Hcap.
  assert (Hinit : books_balance size (ring_buffer_init rb, tally0)).
  { unfold books_balance, ring_wf; simpl. repeat split; lia. }
  pose proof (rb_run_balance size (take k ops) Hm (Forall_take _ k _ Hops) _ Hinit)
    as ((Hw & Hr & Ha & _) & Hrd & Hwr).
  cbv zeta. repeat split; lia.
Qed.

(** Witness of [ring_buffer_trace_invariant]: the shipped buffer, one
    block of three samples written and two samples read back. *)
Lemma ring_buffer_trace_invariant_witness :
  let s := rb_run RING_BUFFER_SIZE
             (take 2 [OpWrite [1; 2; 3]; OpRead (zeros 2) 2])
             (ring_buffer_init (fresh_buffer 480000), tally0) in
  (0 <= available (fst s) <= macro_value RING_BUFFER_SIZE /\
   0 <= writePos (fst s) < macro_value RING_BUFFER_SIZE /\
   0 <= readPos (fst s) < macro_value RING_BUFFER_SIZE) /\
  t_read (snd s) = t_offered (snd s) - t_dropped (snd s) - available (fst s) /\
  t_read (snd s) + available (fst s) = t_written (snd s).
Proof.
  apply (ring_buffer_trace_invariant RING_BUFFER_SIZE (fresh_buffer 480000)
           [OpWrite [1; 2; 3]; OpRead (zeros 2) 2] 2).
  - eval_goal.
  - eval_goal.
  - repeat constructor; eval_goal.
Defined.

(** C2, as stated, fails: after a single write of one sample into the
    initialised buffer nothing has been read, one sample has been written
    and none dropped, so the samples read are not the samples written
    minus the samples dropped, whether "written" counts the samples
    accepted or the samples offered. *)
Lemma ring_buffer_conservation_counterexample :
  let s := rb_run RING_BUFFER_SIZE [OpWrite [5]]
             (fresh_buffer 480000, tally0) in
  t_read (snd s) <> t_written (snd s) - t_dropped (snd s) /\
  t_read (snd s) <> t_offered (snd s) - t_dropped (snd s).
Proof. eval_goal. Qed.

(** ** A literal size: the buffer is a queue

    What the buffer does when the size macro is a single literal, so that
    [x % RING_BUFFER_SIZE] is the remainder by the capacity. *)

Section LiteralSize.
Variable n : Z.
Hypothesis n_ok : 0 < n < 2 ^ 31.

Let size_ok : macro_ok (Lit n) := n_ok.

Lemma ring_cells_apart (p i k : Z) :
  0 <= i < k -> k < n -> (p + i) mod n <> (p + k) mod n.
Proof.
  intros Hi Hk Heq.
  assert (Hz : ((p + k) - (p + i)) mod n = 0).
  { rewrite Zminus_mod, Heq, Z.sub_diag. apply Z.mod_0_l. lia. }
  replace (p + k - (p + i)) with (k - i) in Hz by lia.
  rewrite Z.mod_small in Hz; lia.
Qed.

Lemma ring_view_write_step (src : list Z) (rb : ring_buffer_t) (written : Z) :
  ring_wf (Lit n) rb -> ring_sync n rb -> available rb < n ->
  ring_view n (write_step (Lit n) src rb written)
  = ring_view n rb ++ [src !!! Z.to_nat written] /\
  ring_sync n (write_step (Lit n) src rb written).
Proof.
  intros (Hw & Hr & Ha & Hlen) Hsync Hfree. simpl in Hw, Hr, Ha, Hlen.
  unfold ring_view, ring_sync, write_step; simpl.
  rewrite !wrap32_small by lia.
  split.
  - replace (Z.to_nat (available rb + 1)) with (S (Z.to_nat (available rb)))
      by lia.
    rewrite seq_S, map_app. f_equal.
    + apply map_ext_in. intros i Hi. apply in_seq in Hi.
      apply list_lookup_total_insert_ne.
      rewrite Hsync. intros Heq. apply Z2Nat.inj in Heq;
        try (apply Z.mod_pos_bound; lia).
      symmetry in Heq. revert Heq. apply ring_cells_apart; lia.
    + simpl. rewrite Z2Nat.id by lia. rewrite <- Hsync.
      rewrite list_lookup_total_insert_eq by lia. reflexivity.
  - rewrite Hsync, Zplus_mod_idemp_l. f_equal. lia.
Qed.

Lemma ring_view_read_step (rb : ring_buffer_t) :
  ring_wf (Lit n) rb -> ring_sync n rb -> 0 < available rb ->
  ring_view n rb
  = data rb !!! Z.to_nat (readPos rb) :: ring_view n (read_step (Lit n) rb) /\
  ring_sync n (read_step (Lit n) rb).
Proof.
  intros (Hw & Hr & Ha & Hlen) Hsync Hsome. simpl in Hw, Hr, Ha, Hlen.
  unfold ring_view, ring_sync, read_step; simpl.
  rewrite !wrap32_small by lia.
  split.
  - replace (Z.to_nat (available rb))
      with (S (Z.to_nat (available rb - 1))) by lia.
    cbn [seq map]. f_equal.
    + rewrite Z.add_0_r, Z.mod_small by lia. reflexivity.
    + rewrite <- seq_shift, map_map. apply map_ext. intros i.
      rewrite Zplus_mod_idemp_l. do 3 f_equal. lia.
  - rewrite Hsync, Zplus_mod_idemp_l. f_equal. lia.
Qed.

Lemma write_loop_view (src : list Z) (samples : Z) (fuel : nat) :
  forall (rb : ring_buffer_t) (written : Z),
    ring_wf (Lit n) rb -> ring_sync n rb ->
    0 <= written <= samples -> samples <= Z.of_nat (length src) ->
    samples < 2 ^ 32 -> samples - written <= Z.of_nat fuel ->
    let r := write_loop (Lit n) fuel src samples rb written in
    ring_view n (fst r)
    = ring_view n rb
      ++ take (Z.to_nat (snd r - written)) (drop (Z.to_nat written) src) /\
    ring_sync n (fst r).
Proof.
  induction fuel as [| fuel IH]; intros rb written Hwf Hsync Hwr Hsrc Hs Hfuel.
  - simpl. rewrite Z.sub_diag. simpl. rewrite app_nil_r. auto.
  - cbn [write_loop].
    destruct (Z.ltb_spec written samples) as [Hlt | Hge];
      destruct (Z.ltb_spec (available rb) (macro_value (Lit n))) as [Hfree | Hfull];
      cbn [andb]; cbv zeta; cbn [fst snd];
      try (rewrite Z.sub_diag; simpl; rewrite app_nil_r; auto).
    destruct (write_step_wf (Lit n) size_ok src rb written Hwf Hfree)
      as (Hwf' & Hav').
    destruct (ring_view_write_step src rb written Hwf Hsync Hfree)
      as (Hview & Hsync').
    rewrite (wrap32_small (written + 1)) by lia.
    pose proof (write_loop_spec (Lit n) size_ok src samples fuel
                  (write_step (Lit n) src rb written) (written + 1) Hwf')
      as Hcount.
    specialize (IH (write_step (Lit n) src rb written) (written + 1) Hwf' Hsync').
    cbv zeta in IH, Hcount.
    destruct Hcount as (_ & Hn & _); [lia | lia | lia |].
    destruct IH as (IHv & IHs); [lia | lia | lia | lia |].
    split; [| exact IHs].
    rewrite IHv, Hview, <- app_assoc. f_equal.
    set (w' := snd (write_loop (Lit n) fuel src samples
                      (write_step (Lit n) src rb written) (written + 1))) in *.
    assert (Hw' : written + 1 <= w') by lia.
    replace (Z.to_nat (w' - written)) with (S (Z.to_nat (w' - (written + 1))))
      by lia.
    replace (Z.to_nat (written + 1)) with (S (Z.to_nat written)) by lia.
    rewrite (drop_S src (src !!! Z.to_nat written) (Z.to_nat written))
      by (apply list_lookup_lookup_total_lt; lia).
    reflexivity.
Qed.

Lemma read_loop_view (samples : Z) (fuel : nat) :
  forall (rb : ring_buffer_t) (dst : list Z) (read : Z),
    ring_wf (Lit n) rb -> ring_sync n rb ->
    0 <= read <= samples -> samples <= Z.of_nat (length dst) ->
    samples < 2 ^ 32 -> samples - read <= Z.of_nat fuel ->
    let r := read_loop (Lit n) fuel samples rb dst read in
    take (Z.to_nat (snd r)) (snd (fst r))
    = take (Z.to_nat read) dst
      ++ take (Z.to_nat (snd r - read)) (ring_view n rb) /\
    ring_view n (fst (fst r))
    = drop (Z.to_nat (snd r - read)) (ring_view n rb) /\
    ring_sync n (fst (fst r)).
Proof.
  induction fuel as [| fuel IH];
    intros rb dst read Hwf Hsync Hrd Hdst Hs Hfuel.
  - simpl. rewrite Z.sub_diag. simpl. rewrite app_nil_r. auto.
  - cbn [read_loop].
    destruct (Z.ltb_spec read samples) as [Hlt | Hge];
      destruct (Z.ltb_spec 0 (available rb)) as [Hsome | Hnone];
      cbn [andb]; cbv zeta; cbn [fst snd];
      try (rewrite Z.sub_diag; simpl; rewrite app_nil_r; auto).
    destruct (read_step_wf (Lit n) size_ok rb Hwf Hsome) as (Hwf' & Hav').
    destruct (ring_view_read_step rb Hwf Hsync Hsome) as (Hview & Hsync').
    rewrite (wrap32_small (read + 1)) by lia.
    set (v := data rb !!! Z.to_nat (readPos rb)) in *.
    pose proof (read_loop_spec (Lit n) size_ok samples fuel
                  (read_step (Lit n) rb) (<[Z.to_nat read := v]> dst)
                  (read + 1) Hwf') as Hcount.
    specialize (IH (read_step (Lit n) rb) (<[Z.to_nat read := v]> dst)
                  (read + 1) Hwf' Hsync').
    cbv zeta in IH, Hcount. rewrite length_insert in IH.
    destruct Hcount as (_ & Hn & _); [lia | lia | lia |].
    destruct IH as (IHt & IHv & IHs); [lia | lia | lia | lia |].
    set (r' := snd (read_loop (Lit n) fuel samples (read_step (Lit n) rb)
                      (<[Z.to_nat read := v]> dst) (read + 1))) in *.
    assert (Hr' : read + 1 <= r') by lia.
    replace (Z.to_nat (r' - read)) with (S (Z.to_nat (r' - (read + 1)))) by lia.
    rewrite Hview. cbn [take drop].
    split; [| split; assumption].
    rewrite IHt.
    replace (Z.to_nat (read + 1)) with (S (Z.to_nat read)) by lia.
    rewrite (take_S_r _ _ v) by (apply list_lookup_insert_eq; lia).
    rewrite take_insert_ge by lia.
    rewrite <- app_assoc. reflexivity.
Qed.
End LiteralSize.

(** With a literal size the buffer is a queue: a write appends the
    samples it accepts, in order, and touches none of the stored ones. *)
Theorem literal_size_write_appends (n : Z) (rb : ring_buffer_t) (src : list Z) :
  0 < n < 2 ^ 31 ->
  ring_wf (Lit n) rb -> ring_sync n rb ->
  Z.of_nat (length src) < 2 ^ 32 ->
  let r := ring_buffer_write (Lit n) rb src (Z.of_nat (length src)) in
  snd r = Z.min (Z.of_nat (length src)) (n - available rb) /\
  available (fst r) = available rb + snd r /\
  ring_view n (fst r) = ring_view n rb ++ take (Z.to_nat (snd r)) src /\
  ring_wf (Lit n) (fst r) /\ ring_sync n (fst r).
Proof.
  intros Hn Hwf Hsync Hlen r.
  pose proof (ring_buffer_write_count (Lit n) Hn rb src
                (Z.of_nat (length src)) Hwf) as Hc.
  pose proof (write_loop_view n Hn src (Z.of_nat (length src))
                (Z.to_nat (Z.of_nat (length src))) rb 0 Hwf Hsync) as Hv.
  cbv zeta in Hc, Hv. fold r in Hc.
  unfold ring_buffer_write in r. fold r in Hv.
  destruct Hc as (Hwf' & Hcount & Hav); [lia |].
  destruct Hv as (Hview & Hsync'); [lia | lia | lia | lia |].
  rewrite Z.sub_0_r in Hview. simpl in Hview, Hcount. auto 6.
Qed.

(** With a literal size a read delivers the oldest samples, in order, and
    leaves the rest. *)
Theorem literal_size_read_takes (n : Z) (rb : ring_buffer_t) (dst : list Z)
    (samples : Z) :
  0 < n < 2 ^ 31 ->
  ring_wf (Lit n) rb -> ring_sync n rb ->
  0 <= samples < 2 ^ 32 -> samples <= Z.of_nat (length dst) ->
  let r := ring_buffer_read (Lit n) rb dst samples in
  snd r = Z.min samples (available rb) /\
  delivered r = take (Z.to_nat (snd r)) (ring_view n rb) /\
  ring_view n (fst (fst r)) = drop (Z.to_nat (snd r)) (ring_view n rb) /\
  ring_wf (Lit n) (fst (fst r)) /\ ring_sync n (fst (fst r)).
Proof.
  intros Hn Hwf Hsync Hs Hdst r.
  pose proof (ring_buffer_read_count (Lit n) Hn rb dst samples Hwf Hs) as Hc.
  pose proof (read_loop_view n Hn samples (Z.to_nat samples) rb dst 0
                Hwf Hsync) as Hv.
  cbv zeta in Hc, Hv. fold r in Hc.
  unfold ring_buffer_read in r. fold r in Hv.
  destruct Hc as (Hwf' & Hcount & _).
  destruct Hv as (Htake & Hview & Hsync'); [lia | lia | lia | lia |].
  rewrite Z.sub_0_r in Htake, Hview. simpl in Htake.
  unfold delivered. auto 6.
Qed.

(** With a literal size, [k <= n] samples written into the initialised
    buffer and read back come back as written. *)
Theorem literal_size_roundtrip (n : Z) (rb : ring_buffer_t) (src dst : list Z) :
  0 < n < 2 ^ 31 ->
  Z.of_nat (length (data rb)) = n ->
  Z.of_nat (length src) <= n ->
  (length src <= length dst)%nat ->
  let k := Z.of_nat (length src) in
  let w := ring_buffer_write (Lit n) (ring_buffer_init rb) src k in
  let r := ring_buffer_read (Lit n) (fst w) dst k in
  snd w = k /\ snd r = k /\ delivered r = src.
Proof.
  intros Hn Hlen Hk Hdst k w r.
  assert (Hwf0 : ring_wf (Lit n) (ring_buffer_init rb)).
  { unfold ring_wf; simpl. repeat split; lia. }
  assert (Hsync0 : ring_sync n (ring_buffer_init rb)).
  { unfold ring_sync; simpl. rewrite Z.mod_0_l; lia. }
  destruct (literal_size_write_appends n (ring_buffer_init rb) src Hn Hwf0 Hsync0)
    as (Hw & Hav & Hview & Hwf1 & Hsync1); [lia |].
  fold k in Hw, Hav, Hview, Hwf1, Hsync1. fold w in Hw, Hav, Hview, Hwf1, Hsync1.
  simpl in Hw, Hav, Hview.
  assert (Hwk : snd w = k) by lia.
  destruct (literal_size_read_takes n (fst w) dst k Hn Hwf1 Hsync1)
    as (Hr & Hdel & _); [lia | lia |].
  fold r in Hr, Hdel.
  assert (Hrk : snd r = k) by lia.
  repeat split; try assumption.
  rewrite Hdel, Hview, Hrk, Hwk. unfold k. rewrite Nat2Z.id.
  rewrite !firstn_all. reflexivity.
Qed.

(** With a literal size, a block longer than the capacity written into
    the initialised buffer is cut to its first [n] samples, and [n] is
    returned. *)
Theorem literal_size_overflow (n : Z) (rb : ring_buffer_t) (src : list Z) :
  0 < n < 2 ^ 31 ->
  Z.of_nat (length (data rb)) = n ->
  n < Z.of_nat (length src) < 2 ^ 32 ->
  let w := ring_buffer_write (Lit n) (ring_buffer_init rb) src
             (Z.of_nat (length src)) in
  snd w = n /\ available (fst w) = n /\
  ring_view n (fst w) = take (Z.to_nat n) src.
Proof.
  intros Hn Hlen Hk w.
  assert (Hwf0 : ring_wf (Lit n) (ring_buffer_init rb)).
  { unfold ring_wf; simpl. repeat split; lia. }
  assert (Hsync0 : ring_sync n (ring_buffer_init rb)).
  { unfold ring_sync; simpl. rewrite Z.mod_0_l; lia. }
  destruct (literal_size_write_appends n (ring_buffer_init rb) src Hn Hwf0 Hsync0)
    as (Hw & Hav & Hview & _); [lia |].
  fold w in Hw, Hav, Hview. simpl in Hw, Hav, Hview.
  assert (Hwn : snd w = n) by lia.
  rewrite Hview, Hwn. repeat split; lia.
Qed.

(** ** The shipped cursor arithmetic *)

(** The cursor of the shipped buffer runs through
    [0, 10, 110, 1110, 11110, 111110, 151110, 71110, 231110, 391110] and
    is back at [71110] after the tenth step. *)
Lemma shipped_cursor_orbit :
  map (fun n => writePos (fst (ring_buffer_write RING_BUFFER_SIZE
                                 (fresh_buffer 480000) (ramp n) (Z.of_nat n))))
      (seq 0 11)
  = [0; 10; 110; 1110; 11110; 111110; 151110; 71110; 231110; 391110; 71110].
Proof. eval_goal. Qed.

(** C1 on the shipped code: ten samples written into the empty buffer are
    all accepted, the eighth sits in cell [71110], and the write cursor is
    back on that cell although only 10 of the 480000 cells are in use. A
    further write of one sample is accepted (it returns 1, [available]
    becomes 11) and stores over the unread eighth sample, so what the
    buffer holds is no longer the samples written, in order. *)
Theorem ring_buffer_write_overwrites_unread :
  let r10 := ring_buffer_write RING_BUFFER_SIZE (fresh_buffer 480000)
               (ramp 10) 10 in
  let r11 := ring_buffer_write RING_BUFFER_SIZE (fst r10) [11] 1 in
  snd r10 = 10 /\ available (fst r10) = 10 /\
  writePos (fst r10) = 71110 /\
  data (fst r10) !! Z.to_nat 71110 = Some 8 /\
  snd r11 = 1 /\ available (fst r11) = 11 /\
  data (fst r11) !! Z.to_nat 71110 = Some 11 /\
  delivered (ring_buffer_read RING_BUFFER_SIZE (fst r11) (zeros 11) 11)
  = [1; 2; 3; 4; 5; 6; 7; 11; 9; 10; 11].
Proof. eval_goal. Qed.

(** C3 on the shipped code: eleven samples written into the empty buffer
    in one call (all accepted) and read back in one call do not come back
    as written: the eighth sample read is the eleventh written. *)
Theorem ring_buffer_roundtrip_breaks_at_11 :
  let w := ring_buffer_write RING_BUFFER_SIZE (fresh_buffer 480000)
             (ramp 11) 11 in
  let r := ring_buffer_read RING_BUFFER_SIZE (fst w) (zeros 11) 11 in
  snd w = 11 /\ snd r = 11 /\
  delivered r = [1; 2; 3; 4; 5; 6; 7; 11; 9; 10; 11] /\
  delivered r <> ramp 11.
Proof. eval_goal. Qed.

(** ** The scenario of capacity 10 *)

(** A header whose size macro is the literal [10] (not the shipped one)
    gives a buffer of capacity 10. There, starting from the initialised
    buffer over any array of 10 cells:
    writing [1,2,3] gives [available = 3]; reading 2 delivers [1,2] and
    leaves [available = 1]; writing the nine samples [4 .. 12] returns 9
    and gives [available = 10]; writing [99] then returns 0 and
    [available] stays 10; reading 10 delivers [3 .. 12]. *)
Theorem ring_buffer_capacity_10_trace (d : list Z) :
  length d = 10%nat ->
  let rb0 := ring_buffer_init
               {| data := d; writePos := 0; readPos := 0; available := 0 |} in
  let w1 := ring_buffer_write (Lit 10) rb0 [1; 2; 3] 3 in
  let r2 := ring_buffer_read (Lit 10) (fst w1) (zeros 2) 2 in
  let w3 := ring_buffer_write (Lit 10) (fst (fst r2))
              [4; 5; 6; 7; 8; 9; 10; 11; 12] 9 in
  let w4 := ring_buffer_write (Lit 10) (fst w3) [99] 1 in
  let r5 := ring_buffer_read (Lit 10) (fst w4) (zeros 10) 10 in
  available (fst w1) = 3 /\
  delivered r2 = [1; 2] /\ available (fst (fst r2)) = 1 /\
  snd w3 = 9 /\ available (fst w3) = 10 /\
  snd w4 = 0 /\ available (fst w4) = 10 /\
  delivered r5 = [3; 4; 5; 6; 7; 8; 9; 10; 11; 12].
Proof.
  intros Hlen.
  do 11 (destruct d as [| ? d]; try discriminate Hlen).
  vm_compute. repeat split; reflexivity.
Qed.

Lemma ring_buffer_capacity_10_trace_witness :
  let rb0 := ring_buffer_init
               {| data := zeros 10; writePos := 0; readPos := 0;
                  available := 0 |} in
  let w1 := ring_buffer_write (Lit 10) rb0 [1; 2; 3] 3 in
  let r2 := ring_buffer_read (Lit 10) (fst w1) (zeros 2) 2 in
  let w3 := ring_buffer_write (Lit 10) (fst (fst r2))
              [4; 5; 6; 7; 8; 9; 10; 11; 12] 9 in
  let w4 := ring_buffer_write (Lit 10) (fst w3) [99] 1 in
  let r5 := ring_buffer_read (Lit 10) (fst w4) (zeros 10) 10 in
  available (fst w1) = 3 /\
  delivered r2 = [1; 2] /\ available (fst (fst r2)) = 1 /\
  snd w3 = 9 /\ available (fst w3) = 10 /\
  snd w4 = 0 /\ available (fst w4) = 10 /\
  delivered r5 = [3; 4; 5; 6; 7; 8; 9; 10; 11; 12].
Proof. apply (ring_buffer_capacity_10_trace (zeros 10)). reflexivity. Defined.

(** The same calls on the shipped buffer (capacity 480000, so the write of
    [99] is left out): the last read delivers the samples 11 and 12 in
    place of 8 and 9. *)
Lemma shipped_trace_of_twelve_samples :
  let w1 := ring_buffer_write RING_BUFFER_SIZE (fresh_buffer 480000)
              [1; 2; 3] 3 in
  let r2 := ring_buffer_read RING_BUFFER_SIZE (fst w1) (zeros 2) 2 in
  let w3 := ring_buffer_write RING_BUFFER_SIZE (fst (fst r2))
              [4; 5; 6; 7; 8; 9; 10; 11; 12] 9 in
  let r5 := ring_buffer_read RING_BUFFER_SIZE (fst w3) (zeros 10) 10 in
  delivered r2 = [1; 2] /\ snd w3 = 9 /\ available (fst w3) = 10 /\
  delivered r5 = [3; 4; 5; 6; 7; 11; 12; 10; 11; 12].
Proof. eval_goal. Qed.

(** ** Reading frames from the device *)

(** C4: on a device with [c > 0] channels, a non-null array and
    [maxFrames = f > 0], [audio_read_samples] returns at most [f], takes at
    most [f * c] samples out of the ring buffer, and returns exactly the
    samples taken divided by [c] (so the value returned times [c] is at
    most the samples taken); with a null array, or with [maxFrames = 0], it
    returns [AUDIO_INVALID_PARAM] and changes nothing. *)
Theorem audio_read_samples_frames {H : Type} (size : macro_body)
    (d : audio_device H) (dst : list Z) (f : Z) :
  macro_ok size -> ring_wf size (ringBuffer d) ->
  0 < channels d < 2 ^ 32 -> 0 < f < 2 ^ 32 ->
  (exists (d' : audio_device H) (dst' : list Z) (ret : Z),
      audio_read_samples size (Some d) (Some dst) f = (Some d', Some dst', ret) /\
      let drained := available (ringBuffer d) - available (ringBuffer d') in
      0 <= ret <= f /\
      0 <= drained <= f * channels d /\
      ret = drained / channels d /\
      ret * channels d <= drained) /\
  (forall dev : option (audio_device H),
      audio_read_samples size dev None f = (dev, None, AUDIO_INVALID_PARAM)) /\
  (forall (dev : option (audio_device H)) (buffer : option (list Z)),
      audio_read_samples size dev buffer 0 = (dev, buffer, AUDIO_INVALID_PARAM)).
Proof.
  intros Hm Hwf Hc Hf. split; [| split].
  - unfold audio_read_samples.
    destruct (Z.eqb_spec f 0) as [| _]; [lia |].
    set (total := wrap32 (f * channels d)).
    assert (Htot : 0 <= total < 2 ^ 32) by (apply Z.mod_pos_bound; lia).
    assert (Hle : total <= f * channels d) by (apply wrap32_le; nia).
    pose proof (ring_buffer_read_count size Hm (ringBuffer d) dst total Hwf Htot)
      as Hr.
    destruct (ring_buffer_read size (ringBuffer d) dst total) as [[rb' dst'] n].
    cbv zeta in Hr. simpl in Hr. destruct Hr as (_ & Hn & Hav & _).
    pose proof (macro_value_bound size Hm) as Hcap.
    destruct Hwf as (_ & _ & Ha & _).
    assert (Hn0 : 0 <= n <= f * channels d) by lia.
    assert (Hq : 0 <= n / channels d <= n).
    { split; [apply Z.div_pos; lia |].
      apply Z.div_le_upper_bound; nia. }
    eexists _, dst', _. split; [reflexivity |]. simpl.
    replace (available (ringBuffer d) - available rb') with n by lia.
    rewrite to_int_small by lia.
    repeat split; try lia.
    + apply Z.div_le_upper_bound; lia.
    + rewrite Z.mul_comm. apply Z.mul_div_le. lia.
  - intros dev. unfold audio_read_samples. destruct dev; reflexivity.
  - intros dev buffer. unfold audio_read_samples.
    destruct dev; destruct buffer; reflexivity.
Qed.

Lemma audio_read_samples_frames_witness :
  let d := {| handle := Some (Sim.idle true);
              ringBuffer := fst (ring_buffer_write RING_BUFFER_SIZE
                                   (fresh_buffer 480000) (ramp 5) 5);
              channels := 2;
              errorMsg := EmptyString |} in
  (exists (d' : audio_device Sim.state) (dst' : list Z) (ret : Z),
      audio_read_samples RING_BUFFER_SIZE (Some d) (Some (zeros 8)) 4
      = (Some d', Some dst', ret) /\
      let drained := available (ringBuffer d) - available (ringBuffer d') in
      0 <= ret <= 4 /\
      0 <= drained <= 4 * channels d /\
      ret = drained / channels d /\
      ret * channels d <= drained) /\
  (forall dev : option (audio_device Sim.state),
      audio_read_samples RING_BUFFER_SIZE dev None 4
      = (dev, None, AUDIO_INVALID_PARAM)) /\
  (forall (dev : option (audio_device Sim.state)) (buffer : option (list Z)),
      audio_read_samples RING_BUFFER_SIZE dev buffer 0
      = (dev, buffer, AUDIO_INVALID_PARAM)).
Proof.
  intros d.
  apply (audio_read_samples_frames RING_BUFFER_SIZE d (zeros 8) 4); eval_goal.
Defined.

(** ** The reference backend keeps the backend's contract *)

#[global] Instance sim_laws : RtAudioLaws Sim.state.
Proof.
  split.
  - intros h. reflexivity.
  - intros h. simpl. intros Hr. apply andb_true_iff in Hr. tauto.
Qed.

#[global] Instance sim_open_laws : RtAudioOpenLaws Sim.state.
Proof.
  split.
  - intros h h1 deviceId chans first rate frames err frames'.
    simpl. unfold Sim.open_stream.
    destruct (Sim.is_open h) eqn:Ho;
      [| destruct ((0 <=? deviceId) && (deviceId <? Sim.devices h))];
      intros Heq Herr; inversion Heq; subst; simpl; try rewrite Ho; auto.
    contradiction Herr; reflexivity.
  - intros h h1 deviceId chans first rate frames frames'.
    simpl. unfold Sim.open_stream.
    destruct (Sim.is_open h) eqn:Ho; [| reflexivity].
    intros Heq. inversion Heq.
Qed.

(** ** Stopping *)

Section Stop.
Context {H : Type} `{RtAudio H}.

Lemma audio_stop_keeps_fields (d : audio_device H) :
  exists d' : audio_device H,
    audio_stop (Some d) = Some d' /\
    ringBuffer d' = ringBuffer d /\
    channels d' = channels d /\
    errorMsg d' = errorMsg d.
Proof.
  unfold audio_stop. destruct (handle d) as [h |] eqn:Hh.
  - eexists. split; [reflexivity |]. simpl. auto.
  - exists d. auto.
Qed.

Lemma audio_stop_nothing_to_do (dev : option (audio_device H)) :
  stream_state dev = (false, false) -> audio_stop dev = dev.
Proof.
  destruct dev as [[[h |] rb c e] |]; simpl; try reflexivity.
  intros Hs. injection Hs as Ho Hr. rewrite Hr, Ho. reflexivity.
Qed.

Lemma audio_stop_closes `{!RtAudioLaws H} (dev : option (audio_device H)) :
  stream_state (audio_stop dev) = (false, false).
Proof.
  destruct dev as [[[h |] rb c e] |]; simpl; try reflexivity.
  set (h1 := if rtaudio_is_stream_running h
             then fst (rtaudio_stop_stream h) else h).
  destruct (rtaudio_is_stream_open h1) eqn:Ho.
  - rewrite close_stream_closes.
    destruct (rtaudio_is_stream_running (rtaudio_close_stream h1)) eqn:Hr;
      [| reflexivity].
    apply running_stream_is_open in Hr.
    rewrite close_stream_closes in Hr. discriminate Hr.
  - rewrite Ho.
    destruct (rtaudio_is_stream_running h1) eqn:Hr; [| reflexivity].
    apply running_stream_is_open in Hr. congruence.
Qed.
End Stop.

(** C8: [audio_stop] is idempotent. For every device, a second call right
    after the first changes nothing; a call on a device whose stream is
    neither running nor open (never started) changes nothing; and a call
    leaves the ring buffer, the channel count and the error text as they
    were, with the stream neither open nor running. The function returns
    no value, so there is no error to report. *)
Theorem audio_stop_idempotent {H : Type} `{RtAudio H} `{!RtAudioLaws H}
    (dev : option (audio_device H)) :
  audio_stop (audio_stop dev) = audio_stop dev /\
  (stream_state dev = (false, false) -> audio_stop dev = dev) /\
  stream_state (audio_stop dev) = (false, false) /\
  (forall d : audio_device H, dev = Some d ->
     exists d' : audio_device H,
       audio_stop dev = Some d' /\
       ringBuffer d' = ringBuffer d /\
       channels d' = channels d /\
       errorMsg d' = errorMsg d).
Proof.
  repeat split.
  - apply audio_stop_nothing_to_do, audio_stop_closes.
  - apply audio_stop_nothing_to_do.
  - apply audio_stop_closes.
  - intros d ->. apply audio_stop_keeps_fields.
Qed.

Lemma audio_stop_idempotent_witness :
  let dev := fst (audio_start_recording (Some (Sim.device true 480000))
                   0 2 48000 256) in
  stream_state dev = (true, true) /\
  audio_stop (audio_stop dev) = audio_stop dev /\
  (stream_state dev = (false, false) -> audio_stop dev = dev) /\
  stream_state (audio_stop dev) = (false, false) /\
  (forall d : audio_device Sim.state, dev = Some d ->
     exists d' : audio_device Sim.state,
       audio_stop dev = Some d' /\
       ringBuffer d' = ringBuffer d /\
       channels d' = channels d /\
       errorMsg d' = errorMsg d).
Proof.
  intros dev. split; [reflexivity |].
  exact (@audio_stop_idempotent Sim.state Sim.backend sim_laws dev).
Defined.

(** ** Starting *)

Section Start.
Context {H : Type} `{RtAudio H}.
Variables (d : audio_device H) (h : H).
Variables (deviceId chans rate frames : Z).
Hypothesis handle_present : handle d = Some h.

Let result := audio_start_recording (Some d) deviceId chans rate frames.

(** Invalid parameters: nothing is touched. *)
Lemma start_invalid_param :
  chans = 0 \/ rate = 0 -> result = (Some d, AUDIO_INVALID_PARAM).
Proof.
  intros Hz. unfold result, audio_start_recording. rewrite handle_present.
  destruct Hz as [-> | ->]; [reflexivity |].
  rewrite orb_true_r. reflexivity.
Qed.

(** The open call fails. *)
Lemma start_open_fails (h1 : H) (err fr : Z) :
  chans <> 0 -> rate <> 0 ->
  rtaudio_open_stream h deviceId chans 0 rate frames = (h1, err, fr) ->
  err <> RTAUDIO_ERROR_NONE ->
  result = (Some {| handle := Some h1;
                    ringBuffer := ringBuffer d;
                    channels := chans;
                    errorMsg := snprintf 256 (rtaudio_error h1) |},
            AUDIO_ERROR).
Proof.
  intros Hc Hr Hopen Herr. unfold result, audio_start_recording.
  rewrite handle_present.
  destruct (Z.eqb_spec chans 0); [contradiction |].
  destruct (Z.eqb_spec rate 0); [contradiction |].
  cbn [orb]. rewrite Hopen.
  destruct (Z.eqb_spec err RTAUDIO_ERROR_NONE); [contradiction |].
  reflexivity.
Qed.

(** The open call succeeds and the start call fails. *)
Lemma start_start_fails (h1 h2 : H) (fr err' : Z) :
  chans <> 0 -> rate <> 0 ->
  rtaudio_open_stream h deviceId chans 0 rate frames
    = (h1, RTAUDIO_ERROR_NONE, fr) ->
  rtaudio_start_stream h1 = (h2, err') ->
  err' <> RTAUDIO_ERROR_NONE ->
  result = (Some {| handle := Some (rtaudio_close_stream h2);
                    ringBuffer := ringBuffer d;
                    channels := chans;
                    errorMsg := snprintf 256 (rtaudio_error h2) |},
            AUDIO_ERROR).
Proof.
  intros Hc Hr Hopen Hstart Herr. unfold result, audio_start_recording.
  rewrite handle_present.
  destruct (Z.eqb_spec chans 0); [contradiction |].
  destruct (Z.eqb_spec rate 0); [contradiction |].
  cbn [orb]. rewrite Hopen, Z.eqb_refl. cbn [negb]. rewrite Hstart.
  destruct (Z.eqb_spec err' RTAUDIO_ERROR_NONE); [contradiction |].
  reflexivity.
Qed.

(** Both calls succeed. *)
Lemma start_succeeds (h1 h2 : H) (fr : Z) :
  chans <> 0 -> rate <> 0 ->
  rtaudio_open_stream h deviceId chans 0 rate frames
    = (h1, RTAUDIO_ERROR_NONE, fr) ->
  rtaudio_start_stream h1 = (h2, RTAUDIO_ERROR_NONE) ->
  result = (Some {| handle := Some h2;
                    ringBuffer := ringBuffer d;
                    channels := chans;
                    errorMsg := errorMsg d |},
            to_int fr).
Proof.
  intros Hc Hr Hopen Hstart. unfold result, audio_start_recording.
  rewrite handle_present.
  destruct (Z.eqb_spec chans 0); [contradiction |].
  destruct (Z.eqb_spec rate 0); [contradiction |].
  cbn [orb]. rewrite Hopen, Z.eqb_refl. cbn [negb].
  rewrite Hstart, Z.eqb_refl. reflexivity.
Qed.

(** The cases of [backend_failure]. *)
Lemma backend_failure_cases (msg : option string) :
  backend_failure h deviceId chans rate frames = msg ->
  exists (h1 : H) (err fr : Z),
    rtaudio_open_stream h deviceId chans 0 rate frames = (h1, err, fr) /\
    ((err <> RTAUDIO_ERROR_NONE /\ msg = Some (rtaudio_error h1)) \/
     (err = RTAUDIO_ERROR_NONE /\
      exists (h2 : H) (err' : Z),
        rtaudio_start_stream h1 = (h2, err') /\
        ((err' <> RTAUDIO_ERROR_NONE /\ msg = Some (rtaudio_error h2)) \/
         (err' = RTAUDIO_ERROR_NONE /\ msg = None)))).
Proof.
  unfold backend_failure.
  destruct (rtaudio_open_stream h deviceId chans 0 rate frames)
    as [[h1 err] fr].
  intros Hm. exists h1, err, fr. split; [reflexivity |].
  destruct (Z.eqb_spec err RTAUDIO_ERROR_NONE) as [He | He]; cbn [negb] in Hm.
  - right. split; [exact He |].
    destruct (rtaudio_start_stream h1) as [h2 err'].
    exists h2, err'. split; [reflexivity |].
    destruct (Z.eqb_spec err' RTAUDIO_ERROR_NONE); cbn [negb] in Hm; auto.
  - left. auto.
Qed.
End Start.

Lemma sim_device_created (ok : bool) (n : Z) (junk : audio_device Sim.state) :
  data (ringBuffer junk) = zeros n ->
  audio_create (Some junk) (Some (Sim.idle ok)) = Some (Sim.device ok n).
Proof.
  intros Hd. unfold audio_create, Sim.device, fresh_buffer, ring_buffer_init.
  simpl. rewrite Hd. reflexivity.
Qed.

Lemma snprintf_nonempty (msg : string) :
  msg <> EmptyString -> snprintf 256 msg <> EmptyString.
Proof.
  destruct msg as [| c s]; [congruence |].
  intros _. unfold snprintf. simpl. discriminate.
Qed.

(** C9: in [audio_start_recording], when the open call succeeds, a failing
    start call makes the function close the stream before it returns
    [AUDIO_ERROR], so the stream is not open on return; otherwise the
    stream is returned as the successful start call left it. No execution
    returns with a stream that was opened and whose start failed. *)
Theorem start_failure_closes_stream {H : Type} `{RtAudio H} `{!RtAudioLaws H}
    (d : audio_device H) (h h1 h2 : H)
    (deviceId chans rate frames fr err' : Z) :
  handle d = Some h -> chans <> 0 -> rate <> 0 ->
  rtaudio_open_stream h deviceId chans 0 rate frames
    = (h1, RTAUDIO_ERROR_NONE, fr) ->
  rtaudio_start_stream h1 = (h2, err') ->
  let r := audio_start_recording (Some d) deviceId chans rate frames in
  (err' <> RTAUDIO_ERROR_NONE ->
     snd r = AUDIO_ERROR /\
     option_map handle (fst r) = Some (Some (rtaudio_close_stream h2)) /\
     stream_state (fst r) = (false, false)) /\
  (err' = RTAUDIO_ERROR_NONE ->
     snd r = to_int fr /\ option_map handle (fst r) = Some (Some h2)).
Proof.
  intros Hh Hc Hr Hopen Hstart r. split; intros Herr.
  - unfold r.
    rewrite (start_start_fails d h deviceId chans rate frames Hh h1 h2 fr err')
      by assumption.
    simpl. repeat split.
    rewrite close_stream_closes.
    destruct (rtaudio_is_stream_running (rtaudio_close_stream h2)) eqn:Hrun;
      [| reflexivity].
    apply running_stream_is_open in Hrun.
    rewrite close_stream_closes in Hrun. discriminate Hrun.
  - subst err'. unfold r.
    rewrite (start_succeeds d h deviceId chans rate frames Hh h1 h2 fr)
      by assumption.
    simpl. split; reflexivity.
Qed.

Lemma start_failure_closes_stream_witness :
  let d := Sim.device false 480000 in
  let r := audio_start_recording (Some d) 0 2 48000 256 in
  (1 <> 0 ->
     snd r = AUDIO_ERROR /\
     option_map handle (fst r)
     = Some (Some (Sim.close_stream
                     (Sim.fail (Sim.with_flags (Sim.idle false) true false)
                        "the stream cannot be started"))) /\
     stream_state (fst r) = (false, false)) /\
  (1 = 0 ->
     snd r = to_int 256 /\
     option_map handle (fst r)
     = Some (Some (Sim.fail (Sim.with_flags (Sim.idle false) true false)
                     "the stream cannot be started"))).
Proof.
  intros d.
  apply (@start_failure_closes_stream Sim.state Sim.backend sim_laws d
           (Sim.idle false) (Sim.with_flags (Sim.idle false) true false)
           (Sim.fail (Sim.with_flags (Sim.idle false) true false)
              "the stream cannot be started")
           0 2 48000 256 256 1);
    first [reflexivity | discriminate].
Defined.

(** C5, as amended: a call of [audio_start_recording] with [channels = 0]
    or [sampleRate = 0] returns [AUDIO_INVALID_PARAM] and leaves the whole
    device as it was, the error text included. When the backend's open or
    start call fails, the function returns [AUDIO_ERROR], the ring buffer
    and the stream state (open, running) are as before the call, the error
    text is the backend's diagnostic cut to 255 characters, and the
    channel count is the one requested. *)
Theorem start_failure_effects {H : Type} `{RtAudio H} `{!RtAudioLaws H}
    `{!RtAudioOpenLaws H} (d : audio_device H) (h : H)
    (deviceId chans rate frames : Z) :
  handle d = Some h ->
  let r := audio_start_recording (Some d) deviceId chans rate frames in
  (chans = 0 \/ rate = 0 -> r = (Some d, AUDIO_INVALID_PARAM)) /\
  (chans <> 0 -> rate <> 0 ->
   forall msg : string,
     backend_failure h deviceId chans rate frames = Some msg ->
     exists d' : audio_device H,
       r = (Some d', AUDIO_ERROR) /\
       ringBuffer d' = ringBuffer d /\
       stream_state (Some d') = stream_state (Some d) /\
       errorMsg d' = snprintf 256 msg /\
       channels d' = chans).
Proof.
  intros Hh r. split.
  - apply (start_invalid_param d h deviceId chans rate frames Hh).
  - intros Hc Hr msg Hmsg.
    destruct (backend_failure_cases h deviceId chans rate frames _ Hmsg)
      as (h1 & err & fr & Hopen & [[Herr Hm] | [Herr (h2 & err' & Hstart & Hcase)]]).
    + injection Hm as ->. eexists. split.
      * apply (start_open_fails d h deviceId chans rate frames Hh h1 err fr);
          assumption.
      * cbn [ringBuffer errorMsg channels stream_state handle]. rewrite Hh.
        destruct (failed_open_keeps_stream _ _ _ _ _ _ _ _ _ Hopen Herr)
          as [-> ->].
        auto.
    + subst err. destruct Hcase as [[Herr' Hm] | [_ Hm]]; [| discriminate Hm].
      injection Hm as ->. eexists. split.
      * apply (start_start_fails d h deviceId chans rate frames Hh h1 h2 fr err');
          assumption.
      * cbn [ringBuffer errorMsg channels stream_state handle].
        rewrite Hh, close_stream_closes.
        rewrite (open_needs_closed_stream _ _ _ _ _ _ _ _ Hopen).
        assert (Hoff : forall x : H, rtaudio_is_stream_open x = false ->
                                     rtaudio_is_stream_running x = false).
        { intros x Hx. destruct (rtaudio_is_stream_running x) eqn:Hrun;
            [| reflexivity].
          apply running_stream_is_open in Hrun. congruence. }
        rewrite (Hoff _ (close_stream_closes h2)).
        rewrite (Hoff _ (open_needs_closed_stream _ _ _ _ _ _ _ _ Hopen)).
        auto.
Qed.

Lemma start_failure_effects_witness :
  let d := Sim.device true 480000 in
  let r := audio_start_recording (Some d) 7 2 48000 256 in
  (2 = 0 \/ 48000 = 0 -> r = (Some d, AUDIO_INVALID_PARAM)) /\
  (2 <> 0 -> 48000 <> 0 ->
   forall msg : string,
     backend_failure (Sim.idle true) 7 2 48000 256 = Some msg ->
     exists d' : audio_device Sim.state,
       r = (Some d', AUDIO_ERROR) /\
       ringBuffer d' = ringBuffer d /\
       stream_state (Some d') = stream_state (Some d) /\
       errorMsg d' = snprintf 256 msg /\
       channels d' = 2).
Proof.
  intros d.
  apply (@start_failure_effects Sim.state Sim.backend sim_laws sim_open_laws
           d (Sim.idle true) 7 2 48000 256).
  reflexivity.
Defined.

(** C5, as stated, fails twice. With [channels = 0] on a device without an
    error text the call returns [AUDIO_INVALID_PARAM] and
    [audio_error_message] still reports "No error": the failure is not
    surfaced through the error text. With an invalid device id the open
    call fails, the call returns [AUDIO_ERROR], and the channel count of
    the device has changed from 0 to the requested 2. *)
Lemma start_failure_counterexample :
  let dev := Some (Sim.device true 480000) in
  let r1 := audio_start_recording dev 0 0 48000 256 in
  let r2 := audio_start_recording dev 7 2 48000 256 in
  (snd r1 = AUDIO_INVALID_PARAM /\
   audio_error_message (fst r1) = "No error"%string) /\
  (snd r2 = AUDIO_ERROR /\
   option_map channels dev = Some 0 /\
   option_map channels (fst r2) = Some 2).
Proof. eval_goal. Qed.

(** C7, as amended: [audio_start_recording] stores the backend's
    diagnostic, cut to 255 characters, as the error text whenever the
    backend's open or start call fails, and leaves the error text as it was
    when it succeeds and when it rejects its parameters;
    [audio_error_message] reports "No error" when the stored text is empty
    and the stored text otherwise. *)
Theorem start_error_text {H : Type} `{RtAudio H} (d : audio_device H) (h : H)
    (deviceId chans rate frames : Z) :
  handle d = Some h ->
  let r := audio_start_recording (Some d) deviceId chans rate frames in
  (chans = 0 \/ rate = 0 ->
     snd r = AUDIO_INVALID_PARAM /\
     audio_error_message (fst r) = audio_error_message (Some d)) /\
  (chans <> 0 -> rate <> 0 ->
     (forall msg : string,
        backend_failure h deviceId chans rate frames = Some msg ->
        snd r = AUDIO_ERROR /\
        option_map errorMsg (fst r) = Some (snprintf 256 msg) /\
        (msg <> EmptyString ->
         audio_error_message (fst r) = snprintf 256 msg)) /\
     (backend_failure h deviceId chans rate frames = None ->
        option_map errorMsg (fst r) = Some (errorMsg d) /\
        audio_error_message (fst r) = audio_error_message (Some d))) /\
  (errorMsg d = EmptyString ->
     audio_error_message (Some d) = "No error"%string) /\
  (errorMsg d <> EmptyString -> audio_error_message (Some d) = errorMsg d).
Proof.
  intros Hh r.
  assert (Hset : forall (d' : audio_device H) (msg : string),
             errorMsg d' = snprintf 256 msg -> msg <> EmptyString ->
             audio_error_message (Some d') = snprintf 256 msg).
  { intros d' msg He Hne. unfold audio_error_message. rewrite He.
    pose proof (snprintf_nonempty msg Hne) as Hn.
    destruct (snprintf 256 msg); [congruence | reflexivity]. }
  split; [| split; [| split]].
  - intros Hz. unfold r.
    rewrite (start_invalid_param d h deviceId chans rate frames Hh Hz).
    split; reflexivity.
  - intros Hc Hr. split.
    + intros msg Hmsg.
      destruct (backend_failure_cases h deviceId chans rate frames _ Hmsg)
        as (h1 & err & fr & Hopen & [[Herr Hm] | [Herr (h2 & err' & Hstart & Hcase)]]).
      * injection Hm as ->. unfold r.
        rewrite (start_open_fails d h deviceId chans rate frames Hh h1 err fr)
          by assumption.
        repeat split. cbn [fst]. apply Hset. reflexivity.
      * subst err. destruct Hcase as [[Herr' Hm] | [_ Hm]]; [| discriminate Hm].
        injection Hm as ->. unfold r.
        rewrite (start_start_fails d h deviceId chans rate frames Hh h1 h2 fr err')
          by assumption.
        repeat split. cbn [fst]. apply Hset. reflexivity.
    + intros Hnone.
      destruct (backend_failure_cases h deviceId chans rate frames _ Hnone)
        as (h1 & err & fr & Hopen & [[Herr Hm] | [Herr (h2 & err' & Hstart & Hcase)]]);
        [discriminate Hm |].
      subst err. destruct Hcase as [[_ Hm] | [-> _]]; [discriminate Hm |].
      unfold r.
      rewrite (start_succeeds d h deviceId chans rate frames Hh h1 h2 fr)
        by assumption.
      split; reflexivity.
  - intros He. unfold audio_error_message. rewrite He. reflexivity.
  - intros He. unfold audio_error_message.
    destruct (errorMsg d); [congruence | reflexivity].
Qed.

Lemma start_error_text_witness :
  let d := Sim.device true 480000 in
  let r := audio_start_recording (Some d) 7 2 48000 256 in
  (2 = 0 \/ 48000 = 0 ->
     snd r = AUDIO_INVALID_PARAM /\
     audio_error_message (fst r) = audio_error_message (Some d)) /\
  (2 <> 0 -> 48000 <> 0 ->
     (forall msg : string,
        backend_failure (Sim.idle true) 7 2 48000 256 = Some msg ->
        snd r = AUDIO_ERROR /\
        option_map errorMsg (fst r) = Some (snprintf 256 msg) /\
        (msg <> EmptyString ->
         audio_error_message (fst r) = snprintf 256 msg)) /\
     (backend_failure (Sim.idle true) 7 2 48000 256 = None ->
        option_map errorMsg (fst r) = Some (errorMsg d) /\
        audio_error_message (fst r) = audio_error_message (Some d))) /\
  (errorMsg d = EmptyString ->
     audio_error_message (Some d) = "No error"%string) /\
  (errorMsg d <> EmptyString -> audio_error_message (Some d) = errorMsg d).
Proof.
  intros d.
  apply (@start_error_text Sim.state Sim.backend d (Sim.idle true)
           7 2 48000 256).
  reflexivity.
Defined.

(** C7, as stated, fails twice. A start that fails on an invalid device id
    stores the backend's diagnostic; the next start succeeds and
    [audio_error_message] still reports that diagnostic, not "No error".
    And a start rejected for [channels = 0] on a device without an error
    text leaves [audio_error_message] reporting "No error". *)
Lemma error_text_counterexample :
  let dev := Some (Sim.device true 480000) in
  let r1 := audio_start_recording dev 7 2 48000 256 in
  let r2 := audio_start_recording (fst r1) 0 2 48000 256 in
  let r3 := audio_start_recording dev 0 0 48000 256 in
  (snd r1 = AUDIO_ERROR /\
   snd r2 = 256 /\ stream_state (fst r2) = (true, true) /\
   audio_error_message (fst r2) = "device ID is invalid"%string /\
   audio_error_message (fst r2) <> "No error"%string) /\
  (snd r3 = AUDIO_INVALID_PARAM /\
   audio_error_message (fst r3) = "No error"%string).
Proof. eval_goal. Qed.

(** * Further properties of the wrapper *)

(** ** Edge cases of the two loops *)

Lemma write_loop_nothing (size : macro_body) (fuel : nat) (src : list Z)
    (samples : Z) (rb : ring_buffer_t) (written : Z) :
  samples <= written \/ macro_value size <= available rb ->
  write_loop size fuel src samples rb written = (rb, written).
Proof.
  intros Hstop. destruct fuel as [| fuel]; [reflexivity |].
  cbn [write_loop].
  destruct (Z.ltb_spec written samples);
    destruct (Z.ltb_spec (available rb) (macro_value size));
    cbn [andb]; try reflexivity.
  lia.
Qed.

Lemma read_loop_nothing (size : macro_body) (fuel : nat) (samples : Z)
    (rb : ring_buffer_t) (dst : list Z) (read : Z) :
  samples <= read \/ available rb <= 0 ->
  read_loop size fuel samples rb dst read = (rb, dst, read).
Proof.
  intros Hstop. destruct fuel as [| fuel]; [reflexivity |].
  cbn [read_loop].
  destruct (Z.ltb_spec read samples);
    destruct (Z.ltb_spec 0 (available rb));
    cbn [andb]; try reflexivity.
  lia.
Qed.

(** X1: a read from a buffer that holds no sample, or a read of no
    sample, returns 0 and leaves the buffer and the caller's array as they
    were; a write into a buffer that is full, or a write of no sample,
    returns 0 and leaves the buffer as it was. This holds in every buffer
    state and for both shapes of the size macro. *)
Theorem ring_buffer_empty_and_full (size : macro_body) (rb : ring_buffer_t)
    (src dst : list Z) (samples : Z) :
  (available rb <= 0 \/ samples <= 0 ->
   ring_buffer_read size rb dst samples = (rb, dst, 0)) /\
  (macro_value size <= available rb \/ samples <= 0 ->
   ring_buffer_write size rb src samples = (rb, 0)).
Proof.
  split; intros Hstop.
  - apply read_loop_nothing. tauto.
  - apply write_loop_nothing. tauto.
Qed.

Lemma ring_buffer_empty_and_full_witness :
  let full := {| data := zeros 480000; writePos := 0; readPos := 0;
                 available := 480000 |} in
  ring_buffer_read RING_BUFFER_SIZE (fresh_buffer 480000) (zeros 3) 3
  = (fresh_buffer 480000, zeros 3, 0) /\
  ring_buffer_write RING_BUFFER_SIZE full [7; 8] 2 = (full, 0).
Proof.
  intros full. split.
  - apply (ring_buffer_empty_and_full RING_BUFFER_SIZE (fresh_buffer 480000)
             [] (zeros 3) 3).
    left. eval_goal.
  - apply (ring_buffer_empty_and_full RING_BUFFER_SIZE full [7; 8] [] 2).
    left. eval_goal.
Defined.

(** ** The callback bridge *)

(** X2: [audio_callback] always returns 0 (the stream goes on), also when
    the ring buffer is full or has room for only part of the block. With
    an input block it stores the first
    [min (nFrames * channels mod 2^32) (capacity - available)] samples'
    worth of cells, keeps the buffer invariant, and leaves the read
    cursor, the handle, the channel count and the error text alone.
    Without an input block it changes nothing. *)
Theorem audio_callback_effect {H : Type} (size : macro_body)
    (d : audio_device H) (block : list Z) (nFrames : Z) :
  macro_ok size -> ring_wf size (ringBuffer d) ->
  let r := audio_callback size (Some block) nFrames d in
  let total := wrap32 (nFrames * channels d) in
  snd r = 0 /\
  ring_wf size (ringBuffer (fst r)) /\
  available (ringBuffer (fst r))
  = available (ringBuffer d)
    + Z.min total (macro_value size - available (ringBuffer d)) /\
  readPos (ringBuffer (fst r)) = readPos (ringBuffer d) /\
  handle (fst r) = handle d /\
  channels (fst r) = channels d /\
  errorMsg (fst r) = errorMsg d /\
  audio_callback size None nFrames d = (d, 0).
Proof.
  intros Hm Hwf r total.
  assert (Htot : 0 <= total < 2 ^ 32) by (apply Z.mod_pos_bound; lia).
  pose proof (ring_buffer_write_count size Hm (ringBuffer d) block total
                Hwf Htot) as Hc.
  cbv zeta in Hc. destruct Hc as (Hwf' & Hn & Hav).
  unfold r, audio_callback. cbn [fst snd ringBuffer handle channels errorMsg].
  fold total. rewrite Hav, Hn.
  split; [reflexivity |]. split; [exact Hwf' |]. split; [reflexivity |].
  split; [apply write_loop_readPos |]. repeat split.
Qed.

Lemma audio_callback_effect_witness :
  let d := {| handle := Some (Sim.idle true);
              ringBuffer := fresh_buffer 480000;
              channels := 2;
              errorMsg := EmptyString |} in
  let r := audio_callback RING_BUFFER_SIZE (Some [1; 2; 3; 4]) 2 d in
  let total := wrap32 (2 * channels d) in
  snd r = 0 /\
  ring_wf RING_BUFFER_SIZE (ringBuffer (fst r)) /\
  available (ringBuffer (fst r))
  = available (ringBuffer d)
    + Z.min total (macro_value RING_BUFFER_SIZE - available (ringBuffer d)) /\
  readPos (ringBuffer (fst r)) = readPos (ringBuffer d) /\
  handle (fst r) = handle d /\
  channels (fst r) = channels d /\
  errorMsg (fst r) = errorMsg d /\
  audio_callback RING_BUFFER_SIZE None 2 d = (d, 0).
Proof.
  intros d.
  apply (audio_callback_effect RING_BUFFER_SIZE d [1; 2; 3; 4] 2); eval_goal.
Defined.

(** ** Creating a device *)

(** X3: [audio_create] fails (returns no device) when the allocation or
    the backend object is missing. Otherwise, whatever the allocated
    storage held, the new device carries the backend handle, has channel
    count 0, reports "No error", and its ring buffer satisfies the
    invariant and is empty: any read from it returns 0 and stores
    nothing. *)
Theorem audio_create_fresh {H : Type} (size : macro_body)
    (junk : audio_device H) (h : H) :
  macro_ok size ->
  Z.of_nat (length (data (ringBuffer junk))) = macro_value size ->
  (exists d : audio_device H,
     audio_create (Some junk) (Some h) = Some d /\
     handle d = Some h /\
     channels d = 0 /\
     audio_error_message (Some d) = "No error"%string /\
     ring_wf size (ringBuffer d) /\
     available (ringBuffer d) = 0 /\
     forall (dst : list Z) (samples : Z),
       ring_buffer_read size (ringBuffer d) dst samples
       = (ringBuffer d, dst, 0)) /\
  audio_create None (Some h) = None /\
  audio_create (Some junk) None = None.
Proof.
  intros Hm Hlen. pose proof (macro_value_bound size Hm) as Hcap.
  split; [| split; reflexivity].
  eexists. split; [reflexivity |].
  cbn [handle channels ringBuffer errorMsg audio_error_message].
  do 3 (split; [reflexivity |]).
  split; [unfold ring_wf; simpl; repeat split; lia |].
  split; [reflexivity |].
  intros dst samples. apply read_loop_nothing. right. simpl. lia.
Qed.

Lemma audio_create_fresh_witness :
  let junk := {| handle := None;
                 ringBuffer := {| data := zeros 480000; writePos := 77;
                                  readPos := 5; available := 123456 |};
                 channels := 9;
                 errorMsg := "junk"%string |} in
  (exists d : audio_device Sim.state,
     audio_create (Some junk) (Some (Sim.idle true)) = Some d /\
     handle d = Some (Sim.idle true) /\
     channels d = 0 /\
     audio_error_message (Some d) = "No error"%string /\
     ring_wf RING_BUFFER_SIZE (ringBuffer d) /\
     available (ringBuffer d) = 0 /\
     forall (dst : list Z) (samples : Z),
       ring_buffer_read RING_BUFFER_SIZE (ringBuffer d) dst samples
       = (ringBuffer d, dst, 0)) /\
  audio_create None (Some (Sim.idle true)) = None /\
  audio_create (Some junk) None = None.
Proof.
  intros junk.
  apply (audio_create_fresh RING_BUFFER_SIZE junk (Sim.idle true)); eval_goal.
Defined.

(** ** Stopping, starting again and reading *)

(** X4: after [audio_stop], [audio_is_running] reports 0, for every device
    (a null device and a device without backend object included); and
    whenever [audio_is_running] reports a non-zero value the backend has
    the stream open and running. *)
Theorem audio_is_running_after_stop {H : Type} `{RtAudio H} `{!RtAudioLaws H}
    (dev : option (audio_device H)) :
  audio_is_running (audio_stop dev) = 0 /\
  (audio_is_running dev <> 0 -> stream_state dev = (true, true)).
Proof.
  split.
  - pose proof (audio_stop_closes dev) as Hs.
    unfold audio_is_running, stream_state in *.
    destruct (audio_stop dev) as [d' |]; [| reflexivity].
    destruct (handle d') as [h' |]; [| reflexivity].
    injection Hs as _ ->. reflexivity.
  - unfold audio_is_running, stream_state.
    destruct dev as [d |]; [| congruence].
    destruct (handle d) as [h |]; [| congruence].
    destruct (rtaudio_is_stream_running h) eqn:Hr; [| simpl; congruence].
    intros _. rewrite (running_stream_is_open h Hr). reflexivity.
Qed.

Lemma audio_is_running_after_stop_witness :
  let dev := fst (audio_start_recording (Some (Sim.device true 480000))
                    0 2 48000 256) in
  audio_is_running dev = 1 /\
  audio_is_running (audio_stop dev) = 0 /\
  (audio_is_running dev <> 0 -> stream_state dev = (true, true)).
Proof.
  intros dev. split; [reflexivity |].
  exact (@audio_is_running_after_stop Sim.state Sim.backend sim_laws dev).
Defined.

(** X5: [audio_stop] keeps the unread samples: on a device with a
    non-zero channel count (or a null device), reading after a stop
    returns the same value and fills the caller's array with the same
    samples as reading before it, and the two orders leave the same
    device, for every array and frame count, the calls rejected for a
    null array or [maxFrames = 0] included. *)
Theorem audio_stop_keeps_unread_samples {H : Type} `{RtAudio H}
    (size : macro_body) (dev : option (audio_device H))
    (buffer : option (list Z)) (maxFrames : Z) :
  (forall d : audio_device H, dev = Some d -> 0 < channels d) ->
  let before := audio_read_samples size dev buffer maxFrames in
  let after := audio_read_samples size (audio_stop dev) buffer maxFrames in
  snd after = snd before /\
  snd (fst after) = snd (fst before) /\
  fst (fst after) = audio_stop (fst (fst before)).
Proof.
  intros _.
  unfold audio_read_samples, audio_stop.
  destruct dev as [[[h |] rb c e] |];
    cbn [handle channels ringBuffer errorMsg];
    destruct buffer as [dst |]; try (repeat split; fail);
    destruct (maxFrames =? 0); try (repeat split; fail);
    destruct (ring_buffer_read size rb dst (wrap32 (maxFrames * c)))
      as [[rb' dst'] n];
    repeat split.
Qed.

Lemma audio_stop_keeps_unread_samples_witness :
  let d := {| handle := Some (Sim.with_flags (Sim.idle true) true true);
              ringBuffer := fst (ring_buffer_write RING_BUFFER_SIZE
                                   (fresh_buffer 480000) [1; 2; 3; 4] 4);
              channels := 2;
              errorMsg := EmptyString |} in
  let before := audio_read_samples RING_BUFFER_SIZE (Some d)
                  (Some (zeros 4)) 2 in
  let after := audio_read_samples RING_BUFFER_SIZE (audio_stop (Some d))
                 (Some (zeros 4)) 2 in
  (snd before = 2 /\ stream_state (Some d) = (true, true)) /\
  snd after = snd before /\
  snd (fst after) = snd (fst before) /\
  fst (fst after) = audio_stop (fst (fst before)).
Proof.
  intros d. split; [eval_goal |].
  apply (@audio_stop_keeps_unread_samples Sim.state Sim.backend
           RING_BUFFER_SIZE (Some d) (Some (zeros 4)) 2).
  intros d' Hd. injection Hd as <-. reflexivity.
Defined.

(** X6: [audio_start_recording] never touches the ring buffer, whether it
    succeeds or fails: samples left unread by an earlier recording are
    still in the buffer after the stream has been started again. *)
Theorem audio_start_keeps_ring_buffer {H : Type} `{RtAudio H}
    (dev : option (audio_device H)) (deviceId chans rate frames : Z) :
  option_map ringBuffer
    (fst (audio_start_recording dev deviceId chans rate frames))
  = option_map ringBuffer dev.
Proof.
  unfold audio_start_recording.
  destruct dev as [d |]; [| reflexivity].
  destruct (handle d) as [h |]; [| reflexivity].
  destruct ((chans =? 0) || (rate =? 0)); [reflexivity |].
  destruct (rtaudio_open_stream h deviceId chans 0 rate frames)
    as [[h1 err] fr].
  destruct (negb (err =? RTAUDIO_ERROR_NONE)); [reflexivity |].
  destruct (rtaudio_start_stream h1) as [h2 err'].
  destruct (negb (err' =? RTAUDIO_ERROR_NONE)); reflexivity.
Qed.

(** X7: a call of [audio_start_recording] with valid parameters on a
    device whose stream is already open fails with [AUDIO_ERROR] and
    leaves the stream and the ring buffer as they are, but the channel
    count of the device, which the callback and [audio_read_samples] use,
    is replaced by the one requested. *)
Theorem audio_start_while_open {H : Type} `{RtAudio H} `{!RtAudioOpenLaws H}
    (d : audio_device H) (h : H) (deviceId chans rate frames : Z) :
  handle d = Some h -> rtaudio_is_stream_open h = true ->
  chans <> 0 -> rate <> 0 ->
  exists d' : audio_device H,
    audio_start_recording (Some d) deviceId chans rate frames
    = (Some d', AUDIO_ERROR) /\
    stream_state (Some d') = stream_state (Some d) /\
    ringBuffer d' = ringBuffer d /\
    channels d' = chans.
Proof.
  intros Hh Hopen Hc Hr.
  destruct (rtaudio_open_stream h deviceId chans 0 rate frames)
    as [[h1 err] fr] eqn:Ho.
  assert (Herr : err <> RTAUDIO_ERROR_NONE).
  { intros ->. apply open_needs_closed_stream in Ho. congruence. }
  eexists. split.
  - apply (start_open_fails d h deviceId chans rate frames Hh h1 err fr);
      assumption.
  - cbn [stream_state handle ringBuffer channels]. rewrite Hh.
    destruct (failed_open_keeps_stream _ _ _ _ _ _ _ _ _ Ho Herr) as [-> ->].
    auto.
Qed.

Lemma audio_start_while_open_witness :
  let h := Sim.with_flags (Sim.idle true) true true in
  let d := {| handle := Some h;
              ringBuffer := fresh_buffer 480000;
              channels := 2;
              errorMsg := EmptyString |} in
  exists d' : audio_device Sim.state,
    audio_start_recording (Some d) 0 1 44100 512 = (Some d', AUDIO_ERROR) /\
    stream_state (Some d') = stream_state (Some d) /\
    ringBuffer d' = ringBuffer d /\
    channels d' = 1.
Proof.
  intros h d.
  apply (@audio_start_while_open Sim.state Sim.backend sim_open_laws
           d h 0 1 44100 512);
    first [reflexivity | discriminate].
Defined.

(** X8: when the frame budget covers everything stored
    ([available <= maxFrames * channels < 2^32]), [audio_read_samples]
    empties the ring buffer and returns [available / channels]: the
    [available mod channels] samples of a trailing partial frame are taken
    out of the buffer without being counted. *)
Theorem audio_read_samples_drains {H : Type} (size : macro_body)
    (d : audio_device H) (dst : list Z) (f : Z) :
  macro_ok size -> ring_wf size (ringBuffer d) ->
  0 < channels d -> 0 < f -> f * channels d < 2 ^ 32 ->
  available (ringBuffer d) <= f * channels d ->
  exists (d' : audio_device H) (dst' : list Z),
    audio_read_samples size (Some d) (Some dst) f
    = (Some d', Some dst', available (ringBuffer d) / channels d) /\
    available (ringBuffer d') = 0 /\
    channels d' = channels d.
Proof.
  intros Hm Hwf Hc Hf Hfc Hall.
  unfold audio_read_samples.
  destruct (Z.eqb_spec f 0) as [| _]; [lia |].
  rewrite (wrap32_small (f * channels d)) by nia.
  pose proof (ring_buffer_read_count size Hm (ringBuffer d) dst
                (f * channels d) Hwf) as Hr.
  destruct (ring_buffer_read size (ringBuffer d) dst (f * channels d))
    as [[rb' dst'] n].
  cbv zeta in Hr. simpl in Hr. destruct Hr as (_ & Hn & Hav & _); [nia |].
  pose proof (macro_value_bound size Hm) as Hcap.
  pose proof Hwf as (_ & _ & Ha & _).
  assert (Hn' : n = available (ringBuffer d)) by lia.
  exists {| handle := handle d; ringBuffer := rb'; channels := channels d;
            errorMsg := errorMsg d |}, dst'.
  cbn [ringBuffer channels]. split; [| split; [lia | reflexivity]].
  rewrite to_int_small, Hn'; [reflexivity |].
  assert (n / channels d <= n) by (apply Z.div_le_upper_bound; nia).
  lia.
Qed.

Lemma audio_read_samples_drains_witness :
  let d := {| handle := Some (Sim.idle true);
              ringBuffer := fst (ring_buffer_write RING_BUFFER_SIZE
                                   (fresh_buffer 480000) (ramp 5) 5);
              channels := 2;
              errorMsg := EmptyString |} in
  exists (d' : audio_device Sim.state) (dst' : list Z),
    audio_read_samples RING_BUFFER_SIZE (Some d) (Some (zeros 8)) 4
    = (Some d', Some dst', available (ringBuffer d) / channels d) /\
    available (ringBuffer d') = 0 /\
    channels d' = channels d.
Proof.
  intros d.
  apply (audio_read_samples_drains RING_BUFFER_SIZE d (zeros 8) 4); eval_goal.
Defined.

(** ** The cells the shipped buffer uses *)

Lemma shipped_cells_nonneg (p : Z) : In p shipped_cells -> 0 <= p.
Proof. unfold shipped_cells. simpl. lia. Qed.

Lemma shipped_next_closed (p : Z) :
  In p shipped_cells -> In (cursor_next RING_BUFFER_SIZE p) shipped_cells.
Proof.
  unfold shipped_cells. simpl.
  intros Hp.
  repeat (destruct Hp as [<- | Hp]; [vm_compute; tauto |]).
  contradiction.
Qed.

Lemma write_loop_confined (src : list Z) (samples : Z) (fuel : nat) :
  forall (rb : ring_buffer_t) (written : Z),
    In (writePos rb) shipped_cells ->
    let r := write_loop RING_BUFFER_SIZE fuel src samples rb written in
    In (writePos (fst r)) shipped_cells /\
    forall j : nat, ~ In (Z.of_nat j) shipped_cells ->
                    data (fst r) !! j = data rb !! j.
Proof.
  induction fuel as [| fuel IH]; intros rb written Hin; [simpl; auto |].
  cbn [write_loop].
  destruct ((written <? samples)
            && (available rb <? macro_value RING_BUFFER_SIZE));
    [| simpl; auto].
  destruct (IH (write_step RING_BUFFER_SIZE src rb written)
              (wrap32 (written + 1))) as (Hw & Hd).
  { apply shipped_next_closed. exact Hin. }
  split; [exact Hw |].
  intros j Hj. rewrite (Hd j Hj). simpl.
  apply list_lookup_insert_ne. intros <-.
  apply Hj. rewrite Z2Nat.id; [exact Hin | apply shipped_cells_nonneg, Hin].
Qed.

Lemma read_loop_confined (samples : Z) (fuel : nat) :
  forall (rb : ring_buffer_t) (dst : list Z) (read : Z),
    In (readPos rb) shipped_cells ->
    In (readPos (fst (fst (read_loop RING_BUFFER_SIZE fuel samples rb dst read))))
       shipped_cells.
Proof.
  induction fuel as [| fuel IH]; intros rb dst read Hin; [exact Hin |].
  cbn [read_loop].
  destruct ((read <? samples) && (0 <? available rb)); [| exact Hin].
  apply IH. apply shipped_next_closed. exact Hin.
Qed.

Lemma rb_step_confined (rb0 : ring_buffer_t) (s : ring_buffer_t * tally)
    (o : rb_op) :
  let ok := fun s : ring_buffer_t * tally =>
    In (writePos (fst s)) shipped_cells /\
    In (readPos (fst s)) shipped_cells /\
    forall j : nat, ~ In (Z.of_nat j) shipped_cells ->
                    data (fst s) !! j = data rb0 !! j in
  ok s -> ok (rb_step RING_BUFFER_SIZE s o).
Proof.
  intros ok (Hw & Hr & Hd). destruct s as [rb t]. simpl in Hw, Hr, Hd.
  unfold ok. destruct o as [src | dst samples]; unfold rb_step.
  - pose proof (write_loop_confined src (Z.of_nat (length src))
                  (Z.to_nat (Z.of_nat (length src))) rb 0 Hw) as Hc.
    pose proof (write_loop_readPos RING_BUFFER_SIZE src (Z.of_nat (length src))
                  (Z.to_nat (Z.of_nat (length src))) rb 0) as Hf.
    unfold ring_buffer_write.
    destruct (write_loop RING_BUFFER_SIZE (Z.to_nat (Z.of_nat (length src)))
                src (Z.of_nat (length src)) rb 0) as [rb' w].
    cbv zeta in Hc. simpl in Hc, Hf. destruct Hc as (Hw' & Hd').
    cbn [fst]. rewrite Hf. split; [exact Hw' |]. split; [exact Hr |].
    intros j Hj. rewrite (Hd' j Hj). apply Hd, Hj.
  - pose proof (read_loop_confined samples (Z.to_nat samples) rb dst 0 Hr) as Hc.
    pose proof (read_loop_writer_side RING_BUFFER_SIZE samples
                  (Z.to_nat samples) rb dst 0) as Hf.
    unfold ring_buffer_read.
    destruct (read_loop RING_BUFFER_SIZE (Z.to_nat samples) samples rb dst 0)
      as [[rb' dst'] r].
    cbv zeta in Hf. simpl in Hc, Hf. destruct Hf as (Hfw & Hfd).
    cbn [fst]. rewrite Hfw, Hfd. auto.
Qed.

(** X9: the shipped ring buffer only ever uses ten of its 480000 cells.
    From an initialised buffer, after every sequence of writes and reads
    both cursors are among the cells 0, 10, 110, 1110, 11110, 111110,
    151110, 71110, 231110 and 391110, and every other cell of the array
    still holds what it held before the first write. *)
Theorem shipped_buffer_uses_ten_cells (rb : ring_buffer_t)
    (ops : list rb_op) :
  let s := rb_run RING_BUFFER_SIZE ops (ring_buffer_init rb, tally0) in
  In (writePos (fst s)) shipped_cells /\
  In (readPos (fst s)) shipped_cells /\
  forall j : nat, ~ In (Z.of_nat j) shipped_cells ->
                  data (fst s) !! j = data rb !! j.
Proof.
  cbv zeta. unfold rb_run.
  assert (Hgen : forall s : ring_buffer_t * tally,
             (In (writePos (fst s)) shipped_cells /\
              In (readPos (fst s)) shipped_cells /\
              forall j : nat, ~ In (Z.of_nat j) shipped_cells ->
                              data (fst s) !! j = data rb !! j) ->
             let s' := fold_left (rb_step RING_BUFFER_SIZE) ops s in
             In (writePos (fst s')) shipped_cells /\
             In (readPos (fst s')) shipped_cells /\
             forall j : nat, ~ In (Z.of_nat j) shipped_cells ->
                             data (fst s') !! j = data rb !! j).
  { induction ops as [| o ops IH]; intros s Hs; [exact Hs |].
    simpl. apply IH. apply (rb_step_confined rb s o Hs). }
  apply Hgen. simpl. repeat split; auto.
Qed.

(** ** Round trips along a walk of distinct cells *)

Lemma cursor_walk_prefix_In (size : macro_body) (q : Z) (m : nat) :
  forall (p : Z) (K : nat),
    (m <= K)%nat -> In q (cursor_walk size p m) -> In q (cursor_walk size p K).
Proof.
  induction m as [| m IH]; intros p K Hle Hin; [contradiction |].
  destruct K as [| K]; [lia |].
  simpl in *. destruct Hin as [-> | Hin]; [left; reflexivity |].
  right. apply IH; [lia | exact Hin].
Qed.

Lemma cursor_walk_prefix_NoDup (size : macro_body) (m : nat) :
  forall (p : Z) (K : nat),
    (m <= K)%nat -> List.NoDup (cursor_walk size p K) ->
    List.NoDup (cursor_walk size p m).
Proof.
  induction m as [| m IH]; intros p K Hle Hnd; [constructor |].
  destruct K as [| K]; [lia |].
  simpl in *. apply List.NoDup_cons_iff in Hnd as [Hnot Hnd].
  constructor.
  - intros Hin. apply Hnot.
    apply (cursor_walk_prefix_In size _ m); [lia | exact Hin].
  - apply (IH _ K); [lia | exact Hnd].
Qed.

Section Walk.
Variable size : macro_body.
Hypothesis size_ok : macro_ok size.

(** The write loop stores the samples in the cells of its walk and
    nowhere else, as long as the walk does not come back on itself. *)
Lemma write_loop_walk (src : list Z) (samples : Z) (fuel : nat) :
  forall (rb : ring_buffer_t) (written : Z) (K : nat),
    ring_wf size rb ->
    0 <= written <= samples -> samples <= Z.of_nat (length src) ->
    samples < 2 ^ 32 -> samples - written <= Z.of_nat fuel ->
    List.NoDup (cursor_walk size (writePos rb) K) ->
    let r := write_loop size fuel src samples rb written in
    let m := Z.to_nat (snd r - written) in
    (m <= K)%nat ->
    cells_at (data (fst r)) (cursor_walk size (writePos rb) m)
    = take m (drop (Z.to_nat written) src) /\
    forall q : Z, 0 <= q -> ~ In q (cursor_walk size (writePos rb) m) ->
                  data (fst r) !!! Z.to_nat q = data rb !!! Z.to_nat q.
Proof.
  induction fuel as [| fuel IH];
    intros rb written K Hwf Hwr Hsrc Hs Hfuel Hnd.
  - simpl. rewrite Z.sub_diag. simpl. auto.
  - cbn [write_loop].
    destruct (Z.ltb_spec written samples) as [Hlt | Hge];
      destruct (Z.ltb_spec (available rb) (macro_value size)) as [Hfree | Hfull];
      cbn [andb]; cbv zeta; cbn [fst snd];
      try (rewrite Z.sub_diag; simpl; auto).
    destruct (write_step_wf size size_ok src rb written Hwf Hfree)
      as (Hwf' & Hav').
    rewrite (wrap32_small (written + 1)) by lia.
    pose proof (write_loop_spec size size_ok src samples fuel
                  (write_step size src rb written) (written + 1) Hwf')
      as Hcount.
    cbv zeta in Hcount. destruct Hcount as (_ & Hn & _); [lia | lia | lia |].
    set (r := write_loop size fuel src samples
                (write_step size src rb written) (written + 1)) in *.
    assert (Hw' : written + 1 <= snd r) by lia.
    replace (Z.to_nat (snd r - written))
      with (S (Z.to_nat (snd r - (written + 1)))) by lia.
    set (m' := Z.to_nat (snd r - (written + 1))).
    intros HmK. destruct K as [| K]; [lia |].
    cbn [cursor_walk] in Hnd. apply List.NoDup_cons_iff in Hnd as [Hnot Hnd].
    specialize (IH (write_step size src rb written) (written + 1) K Hwf').
    cbv zeta in IH. fold r in IH. fold m' in IH.
    destruct IH as (IHc & IHf); [lia | lia | lia | lia | exact Hnd | lia |].
    change (writePos (write_step size src rb written))
      with (cursor_next size (writePos rb)) in IHc, IHf.
    pose proof Hwf as ((Hw0 & Hw1) & _ & _ & Hlen).
    assert (Hfresh : ~ In (writePos rb) (cursor_walk size
                                           (cursor_next size (writePos rb)) m')).
    { intros Hin. apply Hnot.
      apply (cursor_walk_prefix_In size _ m'); [lia | exact Hin]. }
    split.
    + cbn [cursor_walk cells_at map]. fold (cells_at (data (fst r))
        (cursor_walk size (cursor_next size (writePos rb)) m')).
      rewrite IHc, (IHf (writePos rb) Hw0 Hfresh).
      cbn [write_step data].
      rewrite list_lookup_total_insert_eq by lia.
      replace (Z.to_nat (written + 1)) with (S (Z.to_nat written)) by lia.
      rewrite (drop_S src (src !!! Z.to_nat written) (Z.to_nat written))
        by (apply list_lookup_lookup_total_lt; lia).
      reflexivity.
    + intros q Hq Hout. cbn [cursor_walk] in Hout.
      rewrite (IHf q Hq) by (intros Hin; apply Hout; right; exact Hin).
      cbn [write_step data].
      apply list_lookup_total_insert_ne. intros Heq.
      apply Z2Nat.inj in Heq; [| lia | lia].
      apply Hout. left. exact Heq.
Qed.

(** The read loop delivers the contents of the cells of its walk. *)
Lemma read_loop_walk (samples : Z) (fuel : nat) :
  forall (rb : ring_buffer_t) (dst : list Z) (read : Z),
    ring_wf size rb ->
    0 <= read <= samples -> samples <= Z.of_nat (length dst) ->
    samples < 2 ^ 32 -> samples - read <= Z.of_nat fuel ->
    let r := read_loop size fuel samples rb dst read in
    take (Z.to_nat (snd r)) (snd (fst r))
    = take (Z.to_nat read) dst
      ++ cells_at (data rb)
           (cursor_walk size (readPos rb) (Z.to_nat (snd r - read))).
Proof.
  induction fuel as [| fuel IH]; intros rb dst read Hwf Hrd Hdst Hs Hfuel.
  - simpl. rewrite Z.sub_diag. simpl. rewrite app_nil_r. reflexivity.
  - cbn [read_loop].
    destruct (Z.ltb_spec read samples) as [Hlt | Hge];
      destruct (Z.ltb_spec 0 (available rb)) as [Hsome | Hnone];
      cbn [andb]; cbv zeta; cbn [fst snd];
      try (rewrite Z.sub_diag; simpl; rewrite app_nil_r; reflexivity).
    destruct (read_step_wf size size_ok rb Hwf Hsome) as (Hwf' & Hav').
    rewrite (wrap32_small (read + 1)) by lia.
    set (v := data rb !!! Z.to_nat (readPos rb)) in *.
    pose proof (read_loop_spec size size_ok samples fuel (read_step size rb)
                  (<[Z.to_nat read := v]> dst) (read + 1) Hwf') as Hcount.
    specialize (IH (read_step size rb) (<[Z.to_nat read := v]> dst)
                  (read + 1) Hwf').
    cbv zeta in IH, Hcount. rewrite length_insert in IH.
    destruct Hcount as (_ & Hn & _); [lia | lia | lia |].
    set (r := read_loop size fuel samples (read_step size rb)
                (<[Z.to_nat read := v]> dst) (read + 1)) in *.
    assert (Hr' : read + 1 <= snd r) by lia.
    rewrite IH by lia.
    replace (Z.to_nat (snd r - read))
      with (S (Z.to_nat (snd r - (read + 1)))) by lia.
    replace (Z.to_nat (read + 1)) with (S (Z.to_nat read)) by lia.
    rewrite (take_S_r _ _ v) by (apply list_lookup_insert_eq; lia).
    rewrite take_insert_ge by lia.
    rewrite <- app_assoc. reflexivity.
Qed.

(** Samples written into an empty buffer come back as written when the
    walk of the write does not come back on itself. *)
Lemma roundtrip_along_walk (rb : ring_buffer_t) (src dst : list Z) :
  ring_wf size rb -> available rb = 0 -> readPos rb = writePos rb ->
  Z.of_nat (length src) <= macro_value size ->
  (length src <= length dst)%nat ->
  List.NoDup (cursor_walk size (writePos rb) (length src)) ->
  let k := Z.of_nat (length src) in
  let w := ring_buffer_write size rb src k in
  let r := ring_buffer_read size (fst w) dst k in
  snd w = k /\ snd r = k /\ delivered r = src.
Proof.
  intros Hwf Hav Hpos Hk Hdst Hnd k w r.
  pose proof (macro_value_bound size size_ok) as Hcap.
  assert (Hkn : Z.to_nat k = length src) by (unfold k; lia).
  assert (Hk0 : 0 <= k < 2 ^ 32) by (unfold k; lia).
  pose proof (ring_buffer_write_count size size_ok rb src k Hwf Hk0) as Hc.
  cbv zeta in Hc. fold w in Hc. destruct Hc as (Hwf1 & Hw & Hav1).
  assert (Hwk : snd w = k) by lia.
  pose proof (write_loop_walk src k (Z.to_nat k) rb 0 (length src) Hwf) as Hwalk.
  cbv zeta in Hwalk. unfold ring_buffer_write in w. fold w in Hwalk.
  rewrite Hwk, Z.sub_0_r, Hkn in Hwalk.
  destruct Hwalk as (Hcells & _);
    [lia | unfold k; lia | lia | lia | exact Hnd | lia |].
  change (Z.to_nat 0) with 0%nat in Hcells. cbn [drop] in Hcells.
  rewrite firstn_all in Hcells.
  pose proof (ring_buffer_read_count size size_ok (fst w) dst k Hwf1 Hk0) as Hc.
  cbv zeta in Hc. fold r in Hc. destruct Hc as (_ & Hr & _).
  assert (Hrk : snd r = k) by lia.
  pose proof (read_loop_walk k (Z.to_nat k) (fst w) dst 0 Hwf1) as Hread.
  cbv zeta in Hread. unfold ring_buffer_read in r. fold r in Hread.
  rewrite Hrk, Z.sub_0_r, Hkn in Hread.
  split; [exact Hwk |]. split; [exact Hrk |].
  unfold delivered. rewrite Hrk, Hkn, Hread by (unfold k; lia).
  change (Z.to_nat 0) with 0%nat. cbn [take app].
  pose proof (write_loop_readPos size src k (Z.to_nat k) rb 0) as Hrp.
  fold w in Hrp. rewrite Hrp, Hpos. exact Hcells.
Qed.
End Walk.

Lemma shipped_walk_distinct :
  List.NoDup (cursor_walk RING_BUFFER_SIZE 0 10).
Proof.
  let cells := eval vm_compute in (cursor_walk RING_BUFFER_SIZE 0 10) in
  change (cursor_walk RING_BUFFER_SIZE 0 10) with cells.
  repeat (apply List.NoDup_cons; [simpl; lia |]). apply List.NoDup_nil.
Qed.

(** X10: on the shipped buffer, a block of at most 10 samples written
    right after [ring_buffer_init] is accepted in full and read back
    unchanged and in order, whatever the array and the caller's array
    held before. (At 11 samples the cursor comes back on a cell in
    use.) *)
Theorem shipped_roundtrip_up_to_ten (rb : ring_buffer_t) (src dst : list Z) :
  Z.of_nat (length (data rb)) = 480000 ->
  (length src <= 10)%nat ->
  (length src <= length dst)%nat ->
  let k := Z.of_nat (length src) in
  let w := ring_buffer_write RING_BUFFER_SIZE (ring_buffer_init rb) src k in
  let r := ring_buffer_read RING_BUFFER_SIZE (fst w) dst k in
  snd w = k /\ snd r = k /\ delivered r = src.
Proof.
  intros Hlen Hk Hdst.
  apply (roundtrip_along_walk RING_BUFFER_SIZE).
  - simpl. lia.
  - unfold ring_wf. simpl. repeat split; lia.
  - reflexivity.
  - reflexivity.
  - simpl. lia.
  - exact Hdst.
  - apply (cursor_walk_prefix_NoDup RING_BUFFER_SIZE _ 0 10 Hk).
    exact shipped_walk_distinct.
Qed.

Lemma shipped_roundtrip_up_to_ten_witness :
  let rb := fresh_buffer 480000 in
  let src := ramp 10 in
  let k := Z.of_nat (length src) in
  let w := ring_buffer_write RING_BUFFER_SIZE (ring_buffer_init rb) src k in
  let r := ring_buffer_read RING_BUFFER_SIZE (fst w) (zeros 10) k in
  snd w = k /\ snd r = k /\ delivered r = src.
Proof.
  intros rb src.
  apply (shipped_roundtrip_up_to_ten rb src (zeros 10)).
  - eval_goal.
  - vm_compute. lia.
  - vm_compute. lia.
Defined.

(** X15: through the public interface of the shipped code. On a device
    whose ring buffer has just been initialised, a callback block of
    [f] frames of [channels] samples each, at most 10 samples in all, is
    stored in full, and [audio_read_samples] with [maxFrames = f] then
    returns [f], hands the samples of the block back in order and leaves
    the ring buffer empty. *)
Theorem audio_callback_then_read {H : Type} (d : audio_device H)
    (rb : ring_buffer_t) (block dst : list Z) (f : Z) :
  ringBuffer d = ring_buffer_init rb ->
  Z.of_nat (length (data rb)) = 480000 ->
  0 < channels d -> 0 < f ->
  Z.of_nat (length block) = f * channels d ->
  (length block <= 10)%nat ->
  (length block <= length dst)%nat ->
  let d1 := fst (audio_callback RING_BUFFER_SIZE (Some block) f d) in
  exists (d2 : audio_device H) (dst' : list Z),
    audio_read_samples RING_BUFFER_SIZE (Some d1) (Some dst) f
    = (Some d2, Some dst', f) /\
    take (length block) dst' = block /\
    available (ringBuffer d2) = 0.
Proof.
  intros Hrb Hlen Hc Hf Hk Hten Hdst d1.
  assert (Hwalk : List.NoDup (cursor_walk RING_BUFFER_SIZE 0 (length block))).
  { apply (cursor_walk_prefix_NoDup RING_BUFFER_SIZE _ 0 10 Hten).
    exact shipped_walk_distinct. }
  assert (Hm : macro_ok RING_BUFFER_SIZE) by (simpl; lia).
  assert (Hwf : ring_wf RING_BUFFER_SIZE (ring_buffer_init rb)).
  { unfold ring_wf. simpl. repeat split; lia. }
  pose proof (roundtrip_along_walk RING_BUFFER_SIZE Hm (ring_buffer_init rb)
                block dst Hwf eq_refl eq_refl) as Hround.
  cbv zeta in Hround.
  destruct Hround as (Hw & Hr & Hdel); [simpl; lia | exact Hdst | exact Hwalk |].
  pose proof (ring_buffer_write_count RING_BUFFER_SIZE Hm (ring_buffer_init rb)
                block (Z.of_nat (length block)) Hwf) as Hcount.
  cbv zeta in Hcount. destruct Hcount as (Hwf1 & _ & Hav1); [lia |].
  pose proof (ring_buffer_read_count RING_BUFFER_SIZE Hm
                (fst (ring_buffer_write RING_BUFFER_SIZE (ring_buffer_init rb)
                        block (Z.of_nat (length block))))
                dst (Z.of_nat (length block)) Hwf1) as Hrc.
  cbv zeta in Hrc. destruct Hrc as (_ & _ & Hav2 & _); [lia |].
  unfold d1, audio_callback, audio_read_samples.
  cbn [fst ringBuffer channels handle errorMsg].
  destruct (Z.eqb_spec f 0) as [| _]; [lia |].
  rewrite Hrb, (wrap32_small (f * channels d)) by lia.
  rewrite <- Hk.
  unfold delivered in Hdel.
  destruct (ring_buffer_read RING_BUFFER_SIZE
              (fst (ring_buffer_write RING_BUFFER_SIZE (ring_buffer_init rb)
                      block (Z.of_nat (length block))))
              dst (Z.of_nat (length block))) as [[rb2 dst'] n2].
  cbn [fst snd] in Hr, Hdel, Hav2. subst n2.
  eexists _, dst'. cbn [ringBuffer]. split; [| split].
  - rewrite Hk, Z.div_mul by lia. rewrite to_int_small by lia. reflexivity.
  - rewrite Nat2Z.id in Hdel. exact Hdel.
  - cbn [ringBuffer]. rewrite Hav2, Hav1, Hw. simpl. lia.
Qed.

Lemma audio_callback_then_read_witness :
  let d := {| handle := Some (Sim.idle true);
              ringBuffer := ring_buffer_init (fresh_buffer 480000);
              channels := 2;
              errorMsg := EmptyString |} in
  let d1 := fst (audio_callback RING_BUFFER_SIZE (Some (ramp 8)) 4 d) in
  exists (d2 : audio_device Sim.state) (dst' : list Z),
    audio_read_samples RING_BUFFER_SIZE (Some d1) (Some (zeros 8)) 4
    = (Some d2, Some dst', 4) /\
    take (length (ramp 8)) dst' = ramp 8 /\
    available (ringBuffer d2) = 0.
Proof.
  intros d.
  apply (audio_callback_then_read d (fresh_buffer 480000) (ramp 8) (zeros 8) 4).
  - reflexivity.
  - eval_goal.
  - eval_goal.
  - eval_goal.
  - eval_goal.
  - vm_compute. lia.
  - vm_compute. lia.
Defined.

(** * The fixed-length recorder *)

Lemma wrap_wrap32 (L x : Z) :
  32 <= L -> wrap32 (Microphone.wrapL L x) = wrap32 x.
Proof.
  intros HL. unfold wrap32, Microphone.wrapL.
  replace (2 ^ L) with (2 ^ 32 * 2 ^ (L - 32))
    by (rewrite <- Z.pow_add_r by lia; f_equal; lia).
  assert (0 < 2 ^ (L - 32)) by (apply Z.pow_pos_nonneg; lia).
  rewrite Z.rem_mul_r by lia.
  rewrite (Z.mul_comm (2 ^ 32)), Z.mod_add by lia.
  apply Z.mod_mod. lia.
Qed.

Lemma wrapL_small (L x : Z) :
  0 <= x < 2 ^ L -> Microphone.wrapL L x = x.
Proof. intros Hx. unfold Microphone.wrapL. apply Z.mod_small. exact Hx. Qed.

(** X11: whatever the width of [unsigned long] (at least 32 bits) and
    whatever the arguments, the two size fields of the header written by
    [writeWavHeader] are the exact sizes reduced modulo [2^32]:
    [subchunk2Size] is [totalFrames * channels * (bitsPerSample / 8)] and
    [chunkSize] is that plus 36, both modulo [2^32]; so [chunkSize] is
    [36 + subchunk2Size] modulo [2^32], and a recording of 4 GiB or more
    gets a header that under-reports its size. *)
Theorem wav_header_sizes_mod (L channels sampleRate bits totalFrames : Z) :
  32 <= L ->
  let h := Microphone.writeWavHeader L channels sampleRate bits totalFrames in
  let exact := totalFrames * channels * (bits / 8) in
  Microphone.subchunk2Size h = exact mod 2 ^ 32 /\
  Microphone.chunkSize h = (36 + exact) mod 2 ^ 32 /\
  Microphone.chunkSize h = (36 + Microphone.subchunk2Size h) mod 2 ^ 32.
Proof.
  intros HL h exact.
  assert (HD : wrap32 (Microphone.wrapL L
                 (Microphone.wrapL L (totalFrames * channels) * (bits / 8)))
               = exact mod 2 ^ 32).
  { rewrite wrap_wrap32 by exact HL. unfold wrap32.
    rewrite <- (Z.mul_mod_idemp_l (Microphone.wrapL L (totalFrames * channels)))
      by lia.
    fold (wrap32 (Microphone.wrapL L (totalFrames * channels))).
    rewrite wrap_wrap32 by exact HL. unfold wrap32.
    rewrite Z.mul_mod_idemp_l by lia. reflexivity. }
  assert (HC : Microphone.chunkSize h = (36 + exact) mod 2 ^ 32).
  { unfold h, Microphone.writeWavHeader. cbn [Microphone.chunkSize].
    rewrite wrap_wrap32 by exact HL.
    unfold wrap32 at 1. rewrite <- Z.add_mod_idemp_r by lia.
    unfold wrap32 in HD. rewrite HD.
    rewrite Z.add_mod_idemp_r by lia. reflexivity. }
  split; [exact HD |]. split; [exact HC |].
  rewrite HC. unfold h, Microphone.writeWavHeader.
  cbn [Microphone.subchunk2Size]. rewrite HD.
  rewrite Z.add_mod_idemp_r by lia. reflexivity.
Qed.

Lemma wav_header_sizes_mod_witness :
  let h := Microphone.writeWavHeader 64 2 48000 16 (2 ^ 30) in
  let exact := 2 ^ 30 * 2 * (16 / 8) in
  Microphone.subchunk2Size h = exact mod 2 ^ 32 /\
  Microphone.chunkSize h = (36 + exact) mod 2 ^ 32 /\
  Microphone.chunkSize h = (36 + Microphone.subchunk2Size h) mod 2 ^ 32.
Proof. apply (wav_header_sizes_mod 64 2 48000 16 (2 ^ 30)). lia. Defined.

(** X12: for arguments in range (channel count and bits per sample
    below [2^16], block alignment below [2^16], byte rate and total size
    below [2^32]) the header written by [writeWavHeader] is consistent:
    the channel count and the bits per sample are stored as given,
    [blockAlign = channels * (bitsPerSample / 8)],
    [byteRate = sampleRate * blockAlign],
    [subchunk2Size = totalFrames * blockAlign] (for 16 bits, the size of
    the buffer [main] writes after the header) and
    [chunkSize = 36 + subchunk2Size]. *)
Theorem wav_header_consistent (L channels sampleRate bits totalFrames : Z) :
  32 <= L ->
  0 <= channels < 2 ^ 16 -> 0 <= sampleRate -> 0 <= bits < 2 ^ 16 ->
  0 <= totalFrames ->
  channels * (bits / 8) < 2 ^ 16 ->
  sampleRate * channels * (bits / 8) < 2 ^ 32 ->
  36 + totalFrames * channels * (bits / 8) < 2 ^ 32 ->
  let h := Microphone.writeWavHeader L channels sampleRate bits totalFrames in
  Microphone.numChannels h = channels /\
  Microphone.bitsPerSample h = bits /\
  Microphone.blockAlign h = channels * (bits / 8) /\
  Microphone.byteRate h = Microphone.sampleRate h * Microphone.blockAlign h /\
  Microphone.subchunk2Size h = totalFrames * Microphone.blockAlign h /\
  Microphone.chunkSize h = 36 + Microphone.subchunk2Size h.
Proof.
  intros HL Hc Hs Hb Ht Hba Hbr Hsz h.
  assert (Hq : 0 <= bits / 8) by (apply Z.div_pos; lia).
  assert (H32 : 2 ^ 32 <= 2 ^ L) by (apply Z.pow_le_mono_r; lia).
  assert (Hblock : Microphone.blockAlign h = channels * (bits / 8)).
  { unfold h, Microphone.writeWavHeader. cbn [Microphone.blockAlign].
    rewrite wrap32_small by nia. unfold Microphone.wrap16.
    apply Z.mod_small. nia. }
  assert (Hrate : Microphone.byteRate h = sampleRate * (channels * (bits / 8))).
  { unfold h, Microphone.writeWavHeader. cbn [Microphone.byteRate].
    destruct (Z.eq_dec (bits / 8) 0) as [-> | Hne].
    - rewrite !Z.mul_0_r. reflexivity.
    - rewrite (wrap32_small (sampleRate * channels)) by nia.
      rewrite wrap32_small by nia. ring. }
  assert (Hdata : Microphone.subchunk2Size h
                  = totalFrames * (channels * (bits / 8))).
  { unfold h, Microphone.writeWavHeader. cbn [Microphone.subchunk2Size].
    destruct (Z.eq_dec (bits / 8) 0) as [-> | Hne].
    - rewrite !Z.mul_0_r. reflexivity.
    - rewrite (wrapL_small L (totalFrames * channels)) by nia.
      rewrite wrapL_small by nia. rewrite wrap32_small by nia. ring. }
  assert (Hchunk : Microphone.chunkSize h
                   = 36 + totalFrames * (channels * (bits / 8))).
  { unfold h, Microphone.writeWavHeader. cbn [Microphone.chunkSize].
    destruct (Z.eq_dec (bits / 8) 0) as [-> | Hne].
    - rewrite !Z.mul_0_r. unfold Microphone.wrapL. rewrite Z.mod_0_l by lia.
      rewrite Z.add_0_r. fold (Microphone.wrapL L 36).
      rewrite wrapL_small by lia. apply wrap32_small. lia.
    - rewrite (wrapL_small L (totalFrames * channels)) by nia.
      rewrite (wrapL_small L (totalFrames * channels * (bits / 8))) by nia.
      rewrite wrapL_small by nia. rewrite wrap32_small by nia. ring. }
  rewrite Hblock, Hrate, Hdata, Hchunk.
  unfold h, Microphone.writeWavHeader.
  cbn [Microphone.numChannels Microphone.bitsPerSample Microphone.sampleRate].
  unfold Microphone.wrap16. rewrite !Z.mod_small by lia.
  repeat split.
Qed.

Lemma wav_header_consistent_witness :
  let h := Microphone.writeWavHeader 64 2 48000 16 96000 in
  Microphone.numChannels h = 2 /\
  Microphone.bitsPerSample h = 16 /\
  Microphone.blockAlign h = 2 * (16 / 8) /\
  Microphone.byteRate h = Microphone.sampleRate h * Microphone.blockAlign h /\
  Microphone.subchunk2Size h = 96000 * Microphone.blockAlign h /\
  Microphone.chunkSize h = 36 + Microphone.subchunk2Size h.
Proof.
  apply (wav_header_consistent 64 2 48000 16 96000); eval_goal.
Defined.

Lemma memcpy_inside (dst src : list Byte.byte) (off n : Z) :
  0 <= off -> 0 <= n ->
  off + n <= Z.of_nat (length dst) -> n <= Z.of_nat (length src) ->
  Microphone.memcpy dst off src n
  = Some (take (Z.to_nat off) dst ++ take (Z.to_nat n) src
          ++ drop (Z.to_nat (off + n)) dst).
Proof.
  intros Ho Hn Hd Hs. unfold Microphone.memcpy.
  destruct (Z.leb_spec 0 off); [| lia].
  destruct (Z.leb_spec 0 n); [| lia].
  destruct (Z.leb_spec (off + n) (Z.of_nat (length dst))); [| lia].
  destruct (Z.leb_spec n (Z.of_nat (length src))); [| lia].
  reflexivity.
Qed.

Lemma memcpy_length (dst src r : list Byte.byte) (off n : Z) :
  Microphone.memcpy dst off src n = Some r -> length r = length dst.
Proof.
  unfold Microphone.memcpy.
  destruct (Z.leb_spec 0 off); [| discriminate].
  destruct (Z.leb_spec 0 n); [| discriminate].
  destruct (Z.leb_spec (off + n) (Z.of_nat (length dst))); [| discriminate].
  destruct (Z.leb_spec n (Z.of_nat (length src))); [| discriminate].
  cbn [andb]. intros [= <-].
  rewrite !length_app, !length_take, length_drop. lia.
Qed.

(** One call of [input_callback] on a recorder in order, with a block of
    [n] frames: the result, the counter and the buffer afterwards. *)
Lemma input_callback_in_order (L n : Z) (input : list Byte.byte)
    (d : Microphone.InputData) :
  Microphone.recorder_ok L n d ->
  Z.of_nat (length input) = n * Microphone.channels d * 2 ->
  exists (d' : Microphone.InputData) (ret : Z),
    Microphone.input_callback L input n d = Some (d', ret) /\
    Microphone.recorder_ok L n d' /\
    Microphone.frameCounter d'
    = Z.min (Microphone.frameCounter d + n) (Microphone.totalFrames d) /\
    Microphone.totalFrames d' = Microphone.totalFrames d /\
    Microphone.channels d' = Microphone.channels d /\
    ret = (if Microphone.frameCounter d' =? Microphone.totalFrames d
           then 2 else 0) /\
    Microphone.buffer d'
    = take (Z.to_nat (Microphone.frameCounter d * Microphone.channels d * 2))
        (Microphone.buffer d)
      ++ take (Z.to_nat ((Microphone.frameCounter d' - Microphone.frameCounter d)
                         * Microphone.channels d * 2)) input
      ++ drop (Z.to_nat (Microphone.frameCounter d' * Microphone.channels d * 2))
           (Microphone.buffer d).
Proof.
  destruct d as [buf bb tf fc c]. unfold Microphone.recorder_ok.
  cbn [Microphone.buffer Microphone.bufferBytes Microphone.totalFrames
       Microphone.frameCounter Microphone.channels].
  intros (Hfc & Hc & Hn & Hnc & Htn & Hsz & Hlen & Hbb) Hin.
  unfold Microphone.input_callback.
  cbn [Microphone.buffer Microphone.bufferBytes Microphone.totalFrames
       Microphone.frameCounter Microphone.channels].
  rewrite (wrapL_small L (fc + n)) by lia.
  rewrite (wrapL_small L (fc * c)) by nia.
  destruct (Z.ltb_spec tf (fc + n)) as [Hover | Hfit].
  - rewrite (wrapL_small L (tf - fc)) by lia.
    rewrite (wrap32_small (tf - fc)) by lia.
    rewrite (wrap32_small ((tf - fc) * c)) by nia.
    rewrite (wrapL_small L ((tf - fc) * c * 2)) by nia.
    rewrite (memcpy_inside buf input (fc * c * 2) ((tf - fc) * c * 2))
      by nia.
    replace (fc + (tf - fc)) with tf by lia.
    rewrite (wrapL_small L tf) by lia. rewrite Z.leb_refl.
    eexists _, _. split; [reflexivity |].
    cbn [Microphone.buffer Microphone.bufferBytes Microphone.totalFrames
         Microphone.frameCounter Microphone.channels].
    rewrite Z.min_r by lia. rewrite Z.eqb_refl.
    replace (fc * c * 2 + (tf - fc) * c * 2) with (tf * c * 2) by ring.
    split; [| repeat split; reflexivity].
    repeat split; try lia.
    rewrite !length_app, !length_take, length_drop. nia.
  - rewrite Hbb by lia.
    rewrite (memcpy_inside buf input (fc * c * 2) (n * c * 2)) by nia.
    rewrite (wrapL_small L (fc + n)) by lia.
    eexists _, _. split; [reflexivity |].
    cbn [Microphone.buffer Microphone.bufferBytes Microphone.totalFrames
         Microphone.frameCounter Microphone.channels].
    rewrite Z.min_l by lia.
    replace (fc * c * 2 + n * c * 2) with ((fc + n) * c * 2) by ring.
    replace (fc + n - fc) with n by lia.
    split; [| repeat split; try reflexivity].
    + repeat split; try lia.
      rewrite !length_app, !length_take, length_drop. nia.
    + destruct (Z.leb_spec tf (fc + n)); destruct (Z.eqb_spec (fc + n) tf);
        try reflexivity; lia.
Qed.

(** ** A whole recording *)

Lemma record_from (L n : Z) (blocks : list (list Byte.byte)) :
  forall d : Microphone.InputData,
    Microphone.recorder_ok L n d ->
    Forall (fun b : list Byte.byte =>
              Z.of_nat (length b) = n * Microphone.channels d * 2) blocks ->
    Microphone.totalFrames d
    <= Microphone.frameCounter d + Z.of_nat (length blocks) * n ->
    exists d' : Microphone.InputData,
      Microphone.record L n blocks d = Some d' /\
      Microphone.frameCounter d' = Microphone.totalFrames d /\
      Microphone.totalFrames d' = Microphone.totalFrames d /\
      Microphone.channels d' = Microphone.channels d /\
      Microphone.buffer d'
      = take (Z.to_nat (Microphone.frameCounter d * Microphone.channels d * 2))
          (Microphone.buffer d)
        ++ take (Z.to_nat ((Microphone.totalFrames d - Microphone.frameCounter d)
                           * Microphone.channels d * 2)) (concat blocks).
Proof.
  induction blocks as [| b bs IH]; intros d Hok Hbs Hcover.
  - exists d. simpl in Hcover.
    pose proof Hok as (Hfc & _ & _ & _ & _ & _ & Hlen & _).
    assert (Hdone : Microphone.frameCounter d = Microphone.totalFrames d) by lia.
    repeat split; try assumption; try reflexivity.
    rewrite Hdone, Z.sub_diag. simpl. rewrite app_nil_r.
    rewrite take_ge by lia. reflexivity.
  - apply Forall_cons in Hbs as [Hb Hbs].
    destruct (input_callback_in_order L n b d Hok Hb)
      as (d1 & ret & Hcall & Hok1 & Hfc1 & Htf1 & Hc1 & Hret & Hbuf1).
    pose proof Hok as (Hfc & Hc & Hn & Hnc & Htn & Hsz & Hlen & _).
    cbn [Microphone.record]. rewrite Hcall.
    destruct (Z.eqb_spec (Microphone.frameCounter d1) (Microphone.totalFrames d))
      as [Hdone | Hmore]; subst ret.
    + cbn [Z.eqb]. exists d1. repeat split; try assumption.
      rewrite Hbuf1, Hdone.
      rewrite (drop_ge (Microphone.buffer d)) by lia.
      rewrite app_nil_r. f_equal. cbn [concat].
      rewrite take_app_le; [reflexivity |]. nia.
    + cbn [Z.eqb].
      assert (Hstep : Microphone.frameCounter d1 = Microphone.frameCounter d + n)
        by lia.
      destruct (IH d1 Hok1) as (d' & Hrun & Hfc' & Htf' & Hc' & Hbuf').
      { rewrite Hc1. exact Hbs. }
      { rewrite Htf1, Hstep. cbn [length] in Hcover. lia. }
      exists d'. rewrite Htf1 in *. rewrite Hc1 in *.
      split; [exact Hrun |]. repeat split; try assumption.
      rewrite Hbuf', Hbuf1, Hstep.
      replace (Microphone.frameCounter d + n - Microphone.frameCounter d)
        with n by lia.
      rewrite (take_ge b) by lia.
      set (a := Z.to_nat (Microphone.frameCounter d * Microphone.channels d * 2)).
      assert (Ha : length (take a (Microphone.buffer d)) = a).
      { rewrite length_take. unfold a. nia. }
      rewrite app_assoc.
      rewrite take_app_length'.
      2:{ rewrite length_app, Ha. unfold a. nia. }
      rewrite <- app_assoc. f_equal. cbn [concat].
      rewrite take_app_ge by nia. f_equal. f_equal. nia.
Qed.

(** X13: one call of [input_callback] on a recorder in order, with a
    block of [n] frames. The copy stays inside the recording buffer and
    the input block (the call has a result); the frame counter advances
    by [n] but never past [totalFrames]; the call returns 2 exactly when
    the recording is complete and 0 otherwise; the frames recorded so far
    and the part of the buffer behind the new counter are untouched, and
    in between lie the first bytes of the block; and the recorder is in
    order for the next call. *)
Theorem input_callback_step (L n : Z) (input : list Byte.byte)
    (d : Microphone.InputData) :
  Microphone.recorder_ok L n d ->
  Z.of_nat (length input) = n * Microphone.channels d * 2 ->
  exists (d' : Microphone.InputData) (ret : Z),
    Microphone.input_callback L input n d = Some (d', ret) /\
    Microphone.recorder_ok L n d' /\
    Microphone.frameCounter d'
    = Z.min (Microphone.frameCounter d + n) (Microphone.totalFrames d) /\
    (ret = 2 \/ ret = 0) /\
    (ret = 2 <-> Microphone.frameCounter d' = Microphone.totalFrames d') /\
    let before :=
      Z.to_nat (Microphone.frameCounter d * Microphone.channels d * 2) in
    let copied :=
      Z.to_nat ((Microphone.frameCounter d' - Microphone.frameCounter d)
                * Microphone.channels d * 2) in
    length (Microphone.buffer d') = length (Microphone.buffer d) /\
    take before (Microphone.buffer d') = take before (Microphone.buffer d) /\
    take copied (drop before (Microphone.buffer d')) = take copied input /\
    drop (before + copied) (Microphone.buffer d')
    = drop (before + copied) (Microphone.buffer d).
Proof.
  intros Hok Hin.
  destruct (input_callback_in_order L n input d Hok Hin)
    as (d' & ret & Hcall & Hok' & Hfc' & Htf' & Hc' & Hret & Hbuf).
  exists d', ret.
  pose proof Hok as (Hfc & Hc & Hn & Hnc & Htn & Hsz & Hlen & _).
  pose proof Hok' as (_ & _ & _ & _ & _ & _ & Hlen' & _).
  split; [exact Hcall |]. split; [exact Hok' |]. split; [exact Hfc' |].
  split; [| split].
  - rewrite Hret. destruct (_ =? _); auto.
  - rewrite Hret, Htf'.
    destruct (Z.eqb_spec (Microphone.frameCounter d')
                (Microphone.totalFrames d)); split; intros; lia.
  - cbv zeta.
    set (before := Z.to_nat (Microphone.frameCounter d
                             * Microphone.channels d * 2)) in *.
    set (copied := Z.to_nat ((Microphone.frameCounter d'
                              - Microphone.frameCounter d)
                             * Microphone.channels d * 2)) in *.
    assert (Hb : (before <= length (Microphone.buffer d))%nat)
      by (unfold before; nia).
    assert (Hcp : (copied <= length input)%nat) by (unfold copied; nia).
    assert (Hl1 : length (take before (Microphone.buffer d)) = before)
      by (rewrite length_take; lia).
    assert (Hl2 : length (take copied input) = copied)
      by (rewrite length_take; lia).
    replace (Z.to_nat (Microphone.frameCounter d' * Microphone.channels d * 2))
      with (before + copied)%nat in Hbuf by (unfold before, copied; nia).
    split; [| split; [| split]].
    + rewrite Htf', Hc' in Hlen'. lia.
    + rewrite Hbuf. rewrite take_app_length' by (symmetry; exact Hl1).
      reflexivity.
    + rewrite Hbuf. rewrite drop_app_length' by (symmetry; exact Hl1).
      rewrite take_app_length' by (symmetry; exact Hl2). reflexivity.
    + rewrite Hbuf at 1. rewrite app_assoc.
      rewrite drop_app_length'; [reflexivity |].
      rewrite length_app. lia.
Qed.

Lemma input_callback_step_witness :
  let d := {| Microphone.buffer := repeat Byte.x00 12;
              Microphone.bufferBytes := 8;
              Microphone.totalFrames := 3;
              Microphone.frameCounter := 2;
              Microphone.channels := 2 |} in
  let input := repeat Byte.xff 8 in
  exists (d' : Microphone.InputData) (ret : Z),
    Microphone.input_callback 64 input 2 d = Some (d', ret) /\
    Microphone.recorder_ok 64 2 d' /\
    Microphone.frameCounter d'
    = Z.min (Microphone.frameCounter d + 2) (Microphone.totalFrames d) /\
    (ret = 2 \/ ret = 0) /\
    (ret = 2 <-> Microphone.frameCounter d' = Microphone.totalFrames d') /\
    let before :=
      Z.to_nat (Microphone.frameCounter d * Microphone.channels d * 2) in
    let copied :=
      Z.to_nat ((Microphone.frameCounter d' - Microphone.frameCounter d)
                * Microphone.channels d * 2) in
    length (Microphone.buffer d') = length (Microphone.buffer d) /\
    take before (Microphone.buffer d') = take before (Microphone.buffer d) /\
    take copied (drop before (Microphone.buffer d')) = take copied input /\
    drop (before + copied) (Microphone.buffer d')
    = drop (before + copied) (Microphone.buffer d).
Proof.
  intros d input.
  apply (input_callback_step 64 2 input d).
  - unfold Microphone.recorder_ok, d; simpl. repeat split; lia.
  - reflexivity.
Defined.

(** X14: a whole recording. Starting from a recorder whose counter is 0
    and whose [bufferBytes] is the size of the blocks the backend
    delivers, [n] frames each (what [main] of [src/microphone.cpp] sets
    up, where [bufferBytes] is computed after the stream is opened, from
    the buffer size the backend settled on), with blocks that together
    cover [totalFrames], the callback is called until it returns 2,
    every call stays inside its arrays, the counter ends at
    [totalFrames], and the buffer then holds exactly the first
    [totalFrames * channels * 2] bytes of the input, in order. *)
Theorem record_complete (L n c tf : Z) (buf : list Byte.byte)
    (blocks : list (list Byte.byte)) :
  let d0 := {| Microphone.buffer := buf;
               Microphone.bufferBytes := n * c * 2;
               Microphone.totalFrames := tf;
               Microphone.frameCounter := 0;
               Microphone.channels := c |} in
  Microphone.recorder_ok L n d0 ->
  Forall (fun b : list Byte.byte => Z.of_nat (length b) = n * c * 2) blocks ->
  tf <= Z.of_nat (length blocks) * n ->
  exists d' : Microphone.InputData,
    Microphone.record L n blocks d0 = Some d' /\
    Microphone.frameCounter d' = tf /\
    Microphone.buffer d' = take (Z.to_nat (tf * c * 2)) (concat blocks).
Proof.
  intros d0 Hok Hbs Hcover.
  destruct (record_from L n blocks d0 Hok Hbs) as (d' & Hrun & Hfc & _ & _ & Hbuf).
  { simpl. lia. }
  exists d'. split; [exact Hrun |]. split; [exact Hfc |].
  rewrite Hbuf. simpl. rewrite Z.sub_0_r. reflexivity.
Qed.

Lemma record_complete_witness :
  let d0 := {| Microphone.buffer := repeat Byte.x00 6;
               Microphone.bufferBytes := 2 * 1 * 2;
               Microphone.totalFrames := 3;
               Microphone.frameCounter := 0;
               Microphone.channels := 1 |} in
  let blocks := [[Byte.x01; Byte.x02; Byte.x03; Byte.x04];
                 [Byte.x05; Byte.x06; Byte.x07; Byte.x08]] in
  exists d' : Microphone.InputData,
    Microphone.record 64 2 blocks d0 = Some d' /\
    Microphone.frameCounter d' = 3 /\
    Microphone.buffer d' = take (Z.to_nat (3 * 1 * 2)) (concat blocks).
Proof.
  intros d0 blocks.
  apply (record_complete 64 2 1 3 (repeat Byte.x00 6) blocks).
  - unfold Microphone.recorder_ok; simpl. repeat split; lia.
  - repeat constructor.
  - simpl. lia.
Defined.

(** * The scenario of the spec on the shipped buffer *)



